(** * Library assistant: guarded tool dispatch

    A shallow embedding of [src/main.py] (the library assistant built on the
    [agents] package) and the properties of its guardrail, its membership
    gate and its three query tools.

    - Python [str] values are sequences of Unicode code points ([list N]).
    - Module-level tables ([BOOK_DB], [LIBRARY_TIMINGS], [VALID_MEMBERS]) are
      mutable Python objects: they live in a store that every handler reads.
    - Exceptions, the store and the log of external effects are threaded by
      a small state-and-error monad [M].
    - [Runner.run] and the [Agent] constructor belong to the [agents]
      package, which is not part of [src/]; they are modelled from the
      specification and marked as such. *)

From Stdlib Require Import ZArith NArith String Ascii List Lia.
From stdpp Require Import gmap strings list fin_maps.

Local Open Scope N_scope.

(** ** Python strings *)

Abbreviation str := (list N).

(** An ASCII literal of the source as a sequence of code points. *)
Definition py (s : string) : str :=
  N_of_ascii <$> list_ascii_of_string s.

(** [str.isspace] on one code point: the ASCII table of CPython
    (0x09-0x0D, 0x1C-0x20) and the Unicode white space code points. *)
Definition isspace (c : N) : bool :=
  ((9 <=? c) && (c <=? 13)) || ((28 <=? c) && (c <=? 32))
  || (c =? 133) || (c =? 160) || (c =? 5760)
  || ((8192 <=? c) && (c <=? 8202))
  || (c =? 8232) || (c =? 8233) || (c =? 8239) || (c =? 8287) || (c =? 12288).

Fixpoint lstrip (s : str) : str :=
  match s with
  | [] => []
  | c :: s' => if isspace c then lstrip s' else s
  end.

Definition rstrip (s : str) : str := reverse (lstrip (reverse s)).

(** [s.strip()] *)
Definition strip (s : str) : str := rstrip (lstrip s).

(** The case mappings of the code points above 127 come from the Unicode
    character database, which is not part of the program: they are taken as
    an interface.  [upper_full c] is the full upper-case mapping of [c];
    [lower_full s i c] is the lower-case mapping of the code point [c] found
    at index [i] of [s] (the mapping of a capital sigma depends on its
    neighbours). *)
Class UnicodeTables := {
  upper_full : N → str;
  lower_full : str → nat → N → str
}.

(** Tables that leave every code point above 127 as it is. *)
Definition ascii_only_tables : UnicodeTables :=
  {| upper_full := λ c, [c]; lower_full := λ _ _ c, [c] |}.

Section Strings.
Context `{UnicodeTables}.

Definition upper_char (c : N) : str :=
  if (97 <=? c) && (c <=? 122) then [c - 32]
  else if c <? 128 then [c]
  else upper_full c.

(** [s.upper()] *)
Definition upper (s : str) : str := s ≫= upper_char.

Definition lower_char (s : str) (i : nat) (c : N) : str :=
  if (65 <=? c) && (c <=? 90) then [c + 32]
  else if c <? 128 then [c]
  else lower_full s i c.

(** [s.lower()] *)
Definition lower (s : str) : str := mjoin (imap (lower_char s) s).
End Strings.

(** ** Python values, exceptions, the store *)

Inductive pyval :=
| PStr (s : str)
| PInt (n : Z)
| PBool (b : bool).

(** A [dict] literal with string keys, in insertion order. *)
Abbreviation pydict := (list (str * pyval)).

Inductive exn :=
| ValueError (msg : str)
| KeyError (key : str)
| ServiceFailure (msg : str)
| ToolLoopExceeded
| DuplicateToolName (name : str).

(** The module-level tables. *)
Record Globals := {
  book_db : gmap str Z;
  library_timings : gmap str str;
  valid_members : gset str
}.

Definition BOOK_DB : gmap str Z :=
  list_to_map [
    (py "Clean Code", 2%Z);
    (py "The Pragmatic Programmer", 0%Z);
    (py "Introduction to Algorithms", 3%Z);
    (py "Design Patterns", 1%Z);
    (py "Deep Learning", 4%Z)
  ].

(** The separator between the two times is written in the source file as
    the three code points U+201A U+00C4 U+00EC. *)
Definition hours (opening closing : string) : str :=
  py opening ++ py " " ++ [8218; 196; 236] ++ py " " ++ py closing.

Definition LIBRARY_TIMINGS : gmap str str :=
  list_to_map [
    (py "monday", hours "9:00" "19:00");
    (py "tuesday", hours "9:00" "19:00");
    (py "wednesday", hours "9:00" "19:00");
    (py "thursday", hours "9:00" "19:00");
    (py "friday", hours "9:00" "19:00");
    (py "saturday", hours "10:00" "16:00");
    (py "sunday", hours "10:00" "14:00")
  ].

Definition VALID_MEMBERS : gset str :=
  {[ py "M-1001"; py "M-2002"; py "M-3003" ]}.

(** The store right after the module has been loaded. *)
Definition module_globals : Globals :=
  {| book_db := BOOK_DB;
     library_timings := LIBRARY_TIMINGS;
     valid_members := VALID_MEMBERS |}.

(** ** User context *)

Record UserContext := {
  name : str;
  member_id : option str
}.

(** [RunContextWrapper]: the context handed to [Runner.run], if any. *)
Record RunContextWrapper := { context : option UserContext }.

(** ** Effects: exceptions, the store, the log of external calls *)

(** One entry of the conversation sent to the completion service. *)
Inductive turn :=
| UserTurn (content : str)
| ToolCallTurn (tool arg : str)
| ToolResultTurn (tool : str) (result : pydict)
| ToolErrorTurn (tool : str) (e : exn)
| ToolNotVisible (tool : str).

(** A request to the completion service: the agent's instructions, the
    conversation so far and the names of the tools offered. *)
Record Request := {
  req_instructions : str;
  req_conversation : list turn;
  req_tools : list str
}.

(** What the completion service answers: free text, or a tool invocation
    (tool name and its single string argument). *)
Record Response := {
  resp_text : option str;
  resp_tool_call : option (str * str)
}.

(** What lies outside the program: the completion service behind
    [model_gemini], and the bound on tool round-trips the runner is
    configured with. *)
Record Runtime := {
  model_gemini : Request → exn + Response;
  max_tool_round_trips : nat
}.

Inductive event :=
| EvModelCall (agent : str) (req : Request)
| EvToolRun (tool : str) (arg : str).

Record State := {
  globals : Globals;
  trace : list event
}.

Definition M (A : Type) : Type := State → (exn + A) * State.

Definition ret {A} (x : A) : M A := λ st, (inr x, st).

Definition bind {A B} (m : M A) (k : A → M B) : M B :=
  λ st, match m st with
        | (inl e, st') => (inl e, st')
        | (inr x, st') => k x st'
        end.

#[global] Instance M_ret : MRet M := @ret.
#[global] Instance M_bind : MBind M := λ A B k m, bind m k.

(** [raise e] *)
Definition raise {A} (e : exn) : M A := λ st, (inl e, st).

(** [try: m except Exception as e: ...], the outcome handed to the handler. *)
Definition try_catch {A} (m : M A) : M (exn + A) :=
  λ st, let '(r, st') := m st in (inr r, st').

(** Reading a module-level name. *)
Definition read_globals : M Globals := λ st, (inr (globals st), st).

(** The state after one more event has been logged. *)
Definition log_event (st : State) (ev : event) : State :=
  {| globals := globals st; trace := trace st ++ [ev] |}.

Definition emit (ev : event) : M unit := λ st, (inr tt, log_event st ev).

(** The outcome and the final state of a computation. *)
Definition outcome {A} (r : (exn + A) * State) : exn + A := fst r.
Definition final {A} (r : (exn + A) * State) : State := snd r.

(** [d[key]] on a [dict]: [KeyError] when the key is missing. *)
Definition dict_getitem {V} (d : gmap str V) (key : str) : M V :=
  match d !! key with
  | Some v => ret v
  | None => raise (KeyError key)
  end.

(** [key in d] *)
Definition dict_contains {V} (d : gmap str V) (key : str) : bool :=
  bool_decide (is_Some (d !! key)).

(** [d.get(key, default)] *)
Definition dict_get {V} (d : gmap str V) (key : str) (default : V) : V :=
  match d !! key with
  | Some v => v
  | None => default
  end.

(** ** The tools and the agents *)

Record FunctionTool := {
  tool_name : str;
  is_enabled : RunContextWrapper → M bool;
  on_invoke_tool : RunContextWrapper → str → M pydict
}.

Record Agent := {
  agent_name : str;
  instructions : str;
  input_guardrails : list (RunContextWrapper → str → M unit);
  tools : list FunctionTool
}.

Record RunResult := { final_output : str }.

(** Modelled from the spec: the [function_tool] decorator of the [agents]
    package, which is not under [src/].  It turns a handler into a tool
    descriptor named after the function; a tool declared without a visibility
    predicate is always visible (spec 4.2). *)
Definition function_tool (fname : str)
    (enabled : option (RunContextWrapper → M bool))
    (f : RunContextWrapper → str → M pydict) : FunctionTool :=
  {| tool_name := fname;
     is_enabled := default (λ _, mret true) enabled;
     on_invoke_tool := f |}.

(** [is_member_allowed]: [bool(uc and uc.member_id and uc.member_id in
    VALID_MEMBERS)].  A missing context, a missing id and the empty string
    are falsy. *)
Definition is_member_allowed (ctx : RunContextWrapper) : M bool :=
  g ← read_globals;
  mret match context ctx with
       | None => false
       | Some uc =>
           match member_id uc with
           | None => false
           | Some m =>
               if bool_decide (m = []) then false
               else bool_decide (m ∈ valid_members g)
           end
       end.

Definition search_book (ctx : RunContextWrapper) (book_name : str) : M pydict :=
  g ← read_globals;
  mret [ (py "title", PStr book_name);
         (py "in_catalog", PBool (dict_contains (book_db g) book_name)) ].

Definition check_availability (ctx : RunContextWrapper) (book_name : str)
  : M pydict :=
  g ← read_globals;
  if negb (dict_contains (book_db g) book_name) then
    mret [ (py "title", PStr book_name);
           (py "available_copies", PInt 0);
           (py "note", PStr (py "Not in catalog.")) ]
  else
    copies ← dict_getitem (book_db g) book_name;
    mret [ (py "title", PStr book_name);
           (py "available_copies", PInt copies) ].

(** [None] is formatted as the four letters of its name by an f-string. *)
Definition format_optional (o : option str) : str :=
  match o with
  | Some s => s
  | None => py "None"
  end.

(** The local [personalized_prompt] of [handle_query]. *)
Definition personalized_prompt (prompt : str) (ctx : UserContext) : str :=
  py "Hello " ++ name ctx ++ py "! (Member ID: "
  ++ format_optional (member_id ctx) ++ py "). "
  ++ py "Please answer politely and help with library services. "
  ++ py "User asked: " ++ prompt.

(** The message of the [ValueError] the guardrail raises; its first three
    code points are U+201A U+00F9 U+00E5 in the source file. *)
Definition refusal_message : str :=
  [8218; 249; 229]
  ++ py " This assistant only answers library-related questions.".

Definition search_book_tool : FunctionTool :=
  function_tool (py "search_book") None search_book.

Definition check_availability_tool : FunctionTool :=
  function_tool (py "check_availability") (Some is_member_allowed)
    check_availability.

(** What [run_loop] prints for one prompt. *)
Inductive printed :=
| BotSays (text : str)
| ErrorLine (e : exn).

(** The user of the session in [run_loop]: the member id is the string
    of four letters, not the absent value. *)
Definition user_context : UserContext :=
  {| name := py "Omer"; member_id := Some (py "None") |}.

(** Modelled from the spec: the registration contract of the capability
    registry (spec 4.2); the [Agent] constructor that receives the list of
    tools is not under [src/].  A name already registered is refused. *)
Definition register_tool (reg : gmap str FunctionTool) (t : FunctionTool)
  : exn + gmap str FunctionTool :=
  match reg !! tool_name t with
  | Some _ => inl (DuplicateToolName (tool_name t))
  | None => inr (<[tool_name t := t]> reg)
  end.

(** Modelled from the spec: the registry is built once, at start-up, from
    the list of tools; the first refusal aborts the construction. *)
Fixpoint build_registry (ts : list FunctionTool) (reg : gmap str FunctionTool)
  : exn + gmap str FunctionTool :=
  match ts with
  | [] => inr reg
  | t :: ts' =>
      match register_tool reg t with
      | inl e => inl e
      | inr reg' => build_registry ts' reg'
      end
  end.

(** Modelled from the spec: [Agent(...)], evaluated while the module is
    loaded.  An error here is never handled: the process does not start. *)
Definition Agent_new (aname instr : str)
    (guards : list (RunContextWrapper → str → M unit))
    (ts : list FunctionTool) : exn + Agent :=
  match build_registry ts ∅ with
  | inl e => inl e
  | inr _ =>
      inr {| agent_name := aname; instructions := instr;
             input_guardrails := guards; tools := ts |}
  end.

(** Modelled from the spec: [resolveVisibleTools] (spec 4.2), the tools whose
    visibility predicate holds for the context, in declaration order. *)
Fixpoint resolveVisibleTools (ts : list FunctionTool) (ctx : RunContextWrapper)
  : M (list FunctionTool) :=
  match ts with
  | [] => mret []
  | t :: ts' =>
      b ← is_enabled t ctx;
      rest ← resolveVisibleTools ts' ctx;
      mret (if b : bool then t :: rest else rest)
  end.

Definition find_tool (tname : str) (ts : list FunctionTool)
  : option FunctionTool :=
  snd <$> list_find (λ t, tool_name t = tname) ts.

(** Modelled from the spec: step 3 of the dispatch algorithm (spec 4.4).  A
    tool outside the visible set is not executed: the [ToolNotVisible] token
    goes back into the conversation.  An error of a handler is caught and
    fed back as well. *)
Definition execute_tool_call (visible : list FunctionTool)
    (ctx : RunContextWrapper) (tname arg : str) : M turn :=
  match find_tool tname visible with
  | None => mret (ToolNotVisible tname)
  | Some t =>
      emit (EvToolRun tname arg);;
      r ← try_catch (on_invoke_tool t ctx arg);
      mret match r with
           | inl e => ToolErrorTurn tname e
           | inr d => ToolResultTurn tname d
           end
  end.

Section Assistant.
Context {tables : UnicodeTables} (rt : Runtime).

Definition get_library_timings (ctx : RunContextWrapper) (day : str)
  : M pydict :=
  g ← read_globals;
  let key := lower day in
  mret [ (py "day", PStr day);
         (py "hours",
          PStr (dict_get (library_timings g) key (py "Unknown day."))) ].

Definition get_library_timings_tool : FunctionTool :=
  function_tool (py "get_library_timings") None get_library_timings.

(** Modelled from the spec: one round trip to the completion service on
    behalf of an agent, offering the schemas of the visible tools only. *)
Definition call_model (agent : Agent) (visible : list FunctionTool)
    (conv : list turn) : M Response :=
  let req := {| req_instructions := instructions agent;
                req_conversation := conv;
                req_tools := tool_name <$> visible |} in
  emit (EvModelCall (agent_name agent) req);;
  match model_gemini rt req with
  | inl e => raise e
  | inr resp => mret resp
  end.

(** Modelled from the spec: steps 2 to 4 of the dispatch algorithm
    (spec 4.4).  [remaining] counts the tool round-trips still allowed; a
    tool request beyond the bound fails with [ToolLoopExceeded]. *)
Fixpoint dispatch_loop (agent : Agent) (visible : list FunctionTool)
    (ctx : RunContextWrapper) (remaining : nat) (conv : list turn)
  : M str :=
  resp ← call_model agent visible conv;
  match resp_tool_call resp with
  | None => mret (default [] (resp_text resp))
  | Some (tname, arg) =>
      match remaining with
      | O => raise ToolLoopExceeded
      | S remaining' =>
          fed ← execute_tool_call visible ctx tname arg;
          dispatch_loop agent visible ctx remaining'
            (conv ++ [ToolCallTurn tname arg; fed])
      end
  end.

(** Modelled from the spec: the input guardrails run first, in order, on
    the input of the run.  The dispatch core fails closed (spec 4.1, 4.4
    and 7): a guardrail that refuses, and one that fails for any other
    reason, both reject the run, and the rejection reaches the caller as the
    fixed refusal. *)
Fixpoint run_input_guardrails
    (guards : list (RunContextWrapper → str → M unit))
    (ctx : RunContextWrapper) (input : str) : M unit :=
  match guards with
  | [] => mret tt
  | guard :: guards' =>
      verdict ← try_catch (guard ctx input);
      match verdict with
      | inl _ => raise (ValueError refusal_message)
      | inr _ => run_input_guardrails guards' ctx input
      end
  end.

(** Modelled from the spec: [Runner.run] of the [agents] package, which is
    not under [src/]: classification first, then the visible tools, then
    the bounded dispatch loop (spec 4.4 and 5). *)
Definition Runner_run (agent : Agent) (input : str)
    (ctx : RunContextWrapper) : M RunResult :=
  run_input_guardrails (input_guardrails agent) ctx input;;
  visible ← resolveVisibleTools (tools agent) ctx;
  text ← dispatch_loop agent visible ctx (max_tool_round_trips rt)
           [UserTurn input];
  mret {| final_output := text |}.

Definition guardrail_agent : Agent :=
  {| agent_name := py "guardrail-agent";
     instructions :=
       py "You are a strict gatekeeper for a library assistant. "
       ++ py "If the user's message is about books, availability, membership, or library timings, respond with EXACTLY 'ALLOW'. "
       ++ py "For anything else (e.g., sports, politics, finance, chit-chat), respond with EXACTLY 'BLOCK'. "
       ++ py "No extra words.";
     input_guardrails := [];
     tools := [] |}.

Definition library_input_guardrail (ctx : RunContextWrapper)
    (user_message : str) : M unit :=
  result ← Runner_run guardrail_agent user_message {| context := None |};
  if bool_decide (upper (strip (final_output result)) ≠ py "ALLOW")
  then raise (ValueError refusal_message)
  else mret tt.

Definition library_tools : list FunctionTool :=
  [ search_book_tool; check_availability_tool; get_library_timings_tool ].

Definition library_agent : Agent :=
  {| agent_name := py "library-assistant";
     instructions :=
       py "You are a helpful Library Assistant. "
       ++ py "You can: search for books, check availability for registered members, and provide library timings. "
       ++ py "Refuse non-library queries. Use tools when needed.";
     input_guardrails := [library_input_guardrail];
     tools := library_tools |}.

(** The evaluation of [library_agent = Agent(...)] at start-up. *)
Definition library_agent_init : exn + Agent :=
  Agent_new (agent_name library_agent) (instructions library_agent)
    (input_guardrails library_agent) library_tools.

Definition handle_query (prompt : str) (ctx : UserContext) : M RunResult :=
  Runner_run library_agent (personalized_prompt prompt ctx)
    {| context := Some ctx |}.

(** One iteration of the loop of [run_loop] on a line read from the
    terminal: nothing is printed for an empty prompt; any exception of
    [handle_query] is printed by the handler of the loop.  The interrupt
    from the keyboard, which leaves the loop, is not a value of [exn]. *)
Definition run_loop_step (uc : UserContext) (line : str)
  : M (option printed) :=
  let prompt := strip line in
  if bool_decide (prompt = []) then mret None
  else
    r ← try_catch (handle_query prompt uc);
    mret (Some match r with
               | inr result => BotSays (final_output result)
               | inl e => ErrorLine e
               end).
End Assistant.

(** The store and an empty log: the state in which a session starts. *)
Definition initial_state : State :=
  {| globals := module_globals; trace := [] |}.

(** The context is present, carries a member id, and the id is in the
    valid-membership set of the store. *)
Definition has_valid_membership (g : Globals) (ctx : RunContextWrapper) : Prop :=
  ∃ uc m, context ctx = Some uc ∧ member_id uc = Some m ∧ m ∈ valid_members g.

(** A handler that leaves the store and the log as they are. *)
Definition read_only (t : FunctionTool) : Prop :=
  ∀ ctx arg st, final (on_invoke_tool t ctx arg st) = st.

(** The events a run of [agent] with the tools [visible] may log. *)
Definition allowed_event (agent : Agent) (visible : list FunctionTool)
    (ev : event) : Prop :=
  match ev with
  | EvModelCall a req =>
      a = agent_name agent ∧ req_tools req = tool_name <$> visible
  | EvToolRun t _ => t ∈ tool_name <$> visible
  end.

(** The completion service asks for a tool on every request made for
    [agent]. *)
Definition always_requests_tool (rt : Runtime) (agent : Agent) : Prop :=
  ∀ req, req_instructions req = instructions agent →
    ∃ text call,
      model_gemini rt req = inr {| resp_text := text; resp_tool_call := Some call |}.

(** The events of a log that execute a tool handler. *)
Definition is_tool_run (ev : event) : bool :=
  match ev with
  | EvToolRun _ _ => true
  | EvModelCall _ _ => false
  end.

Definition is_model_call (ev : event) : bool := negb (is_tool_run ev).

(** The events of a log that are completion calls made for a given agent. *)
Definition is_model_call_of (aname : str) (ev : event) : bool :=
  match ev with
  | EvModelCall a _ => bool_decide (a = aname)
  | EvToolRun _ _ => false
  end.

(** An event that belongs to the refusal path: neither the execution of a
    tool nor a completion call of the library assistant (the only agent
    that is offered tools). *)
Definition refusal_path_event (ev : event) : Prop :=
  is_tool_run ev = false
  ∧ is_model_call_of (py "library-assistant") ev = false.

Definition count_events (p : event → bool) (evs : list event) : nat :=
  length (List.filter p evs).

(** A completion service for the examples.  To the guardrail agent it gives
    the scripted answer; to any other agent it answers every request with
    one more call of [search_book]. *)
Definition scripted_runtime (guard_answer : exn + str) : Runtime :=
  {| model_gemini := λ req,
       if bool_decide (req_instructions req = instructions guardrail_agent)
       then match guard_answer with
            | inl e => inl e
            | inr text =>
                inr {| resp_text := Some text; resp_tool_call := None |}
            end
       else inr {| resp_text := None;
                   resp_tool_call := Some (py "search_book", py "Dune") |};
     max_tool_round_trips := 8 |}.

(** ** The rest of the module *)

(** The value stored under a key of a [dict] literal. *)
Fixpoint pydict_get (key : str) (d : pydict) : option pyval :=
  match d with
  | [] => None
  | (k, v) :: d' => if bool_decide (k = key) then Some v else pydict_get key d'
  end.

(** The check of the API key while the module is loaded:
    [gemini_api_key = os.getenv("GEMINI_API_KEY")], then the [ValueError]
    when the value is falsy.  [environ] is the environment after
    [load_dotenv()]. *)
Definition gemini_api_key (environ : gmap str str) : exn + str :=
  match environ !! py "GEMINI_API_KEY" with
  | None => inl (ValueError (py "GEMINI_API_KEY is not set."))
  | Some key =>
      if bool_decide (key = [])
      then inl (ValueError (py "GEMINI_API_KEY is not set."))
      else inr key
  end.

(** Two ASCII code points that are the same letter up to case, or the same
    code point. *)
Definition same_letter (c1 c2 : N) : bool :=
  (c1 <? 128) && (c2 <? 128)
  && ((c1 =? c2)
      || ((65 <=? c1) && (c1 <=? 90) && (c2 =? c1 + 32))
      || ((65 <=? c2) && (c2 <=? 90) && (c1 =? c2 + 32))).

(** A line that holds white space only. *)
Definition blank (line : str) : Prop := Forall (λ c, isspace c = true) line.

#[global] Instance blank_dec line : Decision (blank line).
Proof. unfold blank. apply _. Defined.

(** A word with no white space at either end (the empty word is one). *)
Definition trimmed (w : str) : Prop :=
  (∀ c w', w = c :: w' → isspace c = false)
  ∧ (∀ c w', w = w' ++ [c] → isspace c = false).

(** What the session prints: the greeting, one line per answered prompt,
    the farewell. *)
Inductive console :=
| Greeting
| Answer (p : printed)
| Farewell.

Section Session.
Context {tables : UnicodeTables} (rt : Runtime).

(** The iterations of the loop of [run_loop] over the lines typed before
    the interrupt from the keyboard, for the user [uc]. *)
Fixpoint run_loop_turns (uc : UserContext) (lines : list str)
  : M (list printed) :=
  match lines with
  | [] => mret []
  | line :: lines' =>
      o ← run_loop_step rt uc line;
      outs ← run_loop_turns uc lines';
      mret match o with
           | Some p => p :: outs
           | None => outs
           end
  end.

(** [run_loop]: the greeting, the turns of [user_context], and the farewell
    printed when the interrupt from the keyboard ends the loop.  The text of
    the prompt that [input] writes is left out. *)
Definition run_loop (lines : list str) : M (list console) :=
  outs ← run_loop_turns user_context lines;
  mret (Greeting :: (Answer <$> outs) ++ [Farewell]).
End Session.

(** A computation that does not change the store and whose outcome depends
    on the store only, not on the log. *)
Definition store_reader {A} (m : M A) : Prop :=
  ∀ st,
    globals (final (m st)) = globals st
    ∧ ∀ st', globals st' = globals st → outcome (m st') = outcome (m st).

(** An event that neither offers nor executes [check_availability]. *)
Definition without_check_availability (ev : event) : Prop :=
  match ev with
  | EvModelCall _ req => py "check_availability" ∉ req_tools req
  | EvToolRun t _ => t ≠ py "check_availability"
  end.

(** The case mappings of one ASCII code point. *)
Definition ascii_upper (c : N) : N :=
  if (97 <=? c) && (c <=? 122) then c - 32 else c.

Definition ascii_lower (c : N) : N :=
  if (65 <=? c) && (c <=? 90) then c + 32 else c.

(** A string of ASCII code points. *)
Definition ascii_only (s : str) : Prop := Forall (λ c, c < 128) s.

(** Two strings that differ in the case of their ASCII letters only. *)
Definition same_letters (s1 s2 : str) : Prop :=
  Forall2 (λ c1 c2, same_letter c1 c2 = true) s1 s2.

(** Two strings of any code points that differ at most in the case of
    their ASCII letters. *)
Definition differ_in_case (s1 s2 : str) : Prop :=
  Forall2 (λ c1 c2, c1 = c2 ∨ same_letter c1 c2 = true) s1 s2.

(** * Properties *)

(** ** The monad *)

Lemma bind_inr {A B} (m : M A) (k : A → M B) st x st' :
  m st = (inr x, st') → (m ≫= k) st = k x st'.
Proof. intros Hm. unfold mbind, M_bind, bind. by rewrite Hm. Qed.

Lemma read_globals_run st : read_globals st = (inr (globals st), st).
Proof. reflexivity. Qed.

(** ** Strings *)

Lemma lstrip_split s :
  ∃ l, s = l ++ lstrip s ∧ Forall (λ c, isspace c = true) l.
Proof.
  induction s as [|c s [l [Hs Hl]]]; simpl.
  - by exists [].
  - destruct (isspace c) eqn:Hc.
    + exists (c :: l). split; [simpl; by f_equal | by constructor].
    + by exists [].
Qed.

Lemma lstrip_head s c s' : lstrip s = c :: s' → isspace c = false.
Proof.
  induction s as [|d s IH]; simpl; [done|].
  destruct (isspace d) eqn:Hd; [done|]. intros [= -> _]. done.
Qed.

(** [strip] removes white space at both ends and nothing else. *)
Lemma strip_split s :
  ∃ l r, s = l ++ strip s ++ r
         ∧ Forall (λ c, isspace c = true) l
         ∧ Forall (λ c, isspace c = true) r.
Proof.
  destruct (lstrip_split s) as [l [Hs Hl]].
  destruct (lstrip_split (reverse (lstrip s))) as [r [Hr Hrr]].
  exists l, (reverse r). split; [|split; [done|]].
  - unfold strip, rstrip. rewrite <- reverse_app, <- Hr, reverse_involutive.
    done.
  - by apply Forall_reverse.
Qed.

Lemma strip_ends s :
  (∀ c s', strip s = c :: s' → isspace c = false)
  ∧ (∀ c s', strip s = s' ++ [c] → isspace c = false).
Proof.
  split; intros c s' Hs.
  - unfold strip, rstrip in Hs.
    destruct (lstrip_split (reverse (lstrip s))) as [l [Hl Hsp]].
    assert (Hrev : lstrip s = reverse (lstrip (reverse (lstrip s))) ++ reverse l).
    { rewrite <- reverse_app, <- Hl. by rewrite reverse_involutive. }
    rewrite Hs in Hrev. simpl in Hrev.
    by apply (lstrip_head s c (s' ++ reverse l)).
  - unfold strip, rstrip in Hs.
    apply (f_equal reverse) in Hs.
    rewrite reverse_involutive, reverse_app in Hs. simpl in Hs.
    by apply (lstrip_head _ _ _ Hs).
Qed.

Lemma upper_ascii_only `{UnicodeTables} s :
  ascii_only s → upper s = ascii_upper <$> s.
Proof.
  unfold upper. induction 1 as [|c s Hc _ IH]; [done|].
  rewrite bind_cons, fmap_cons, IH. unfold upper_char, ascii_upper.
  apply N.ltb_lt in Hc. rewrite Hc. by destruct ((97 <=? c) && (c <=? 122)).
Qed.

Lemma lstrip_blank_app l s : blank l → lstrip (l ++ s) = lstrip s.
Proof. induction 1 as [|c l Hc _ IH]; [done|]. simpl. by rewrite Hc. Qed.

Lemma lstrip_blank l : blank l → lstrip l = [].
Proof.
  intros Hl. rewrite <- (app_nil_r l). by rewrite lstrip_blank_app.
Qed.

Lemma strip_blank l : blank l → strip l = [].
Proof.
  intros Hl. unfold strip, rstrip. rewrite (lstrip_blank l Hl). reflexivity.
Qed.

(** A word without white space at its ends is what [strip] leaves of the
    word with white space around it. *)
Lemma strip_trim l w r :
  blank l → blank r →
  (∀ c w', w = c :: w' → isspace c = false) →
  (∀ c w', w = w' ++ [c] → isspace c = false) →
  strip (l ++ w ++ r) = w.
Proof.
  intros Hl Hr Hfirst Hlast. unfold strip, rstrip.
  rewrite lstrip_blank_app by done.
  destruct w as [|c w'].
  - simpl. rewrite (lstrip_blank r Hr). done.
  - simpl. rewrite (Hfirst c w' eq_refl).
    change (c :: w' ++ r) with ((c :: w') ++ r).
    rewrite reverse_app, lstrip_blank_app by by apply Forall_reverse.
    destruct (reverse (c :: w')) as [|d v] eqn:Hrev.
    + by apply (f_equal reverse) in Hrev; rewrite reverse_involutive in Hrev.
    + apply (f_equal reverse) in Hrev.
      rewrite reverse_involutive, reverse_cons in Hrev.
      simpl. rewrite (Hlast d (reverse v) Hrev).
      by rewrite reverse_cons, <- Hrev.
Qed.

Lemma trimmed_head_last w :
  match head w with Some c => isspace c = false | None => True end →
  match last w with Some c => isspace c = false | None => True end →
  trimmed w.
Proof.
  intros Hhead Hlast. split; intros c w' ->.
  - done.
  - by rewrite last_snoc in Hlast.
Qed.

(** ** The handlers *)

Lemma dict_contains_lookup {V} (d : gmap str V) key :
  dict_contains d key = match d !! key with Some _ => true | None => false end.
Proof.
  unfold dict_contains. destruct (d !! key) eqn:Hk.
  - apply bool_decide_eq_true. by eexists.
  - apply bool_decide_eq_false. by intros [v Hv].
Qed.

Lemma search_book_run ctx book st :
  search_book ctx book st
  = (inr [ (py "title", PStr book);
           (py "in_catalog", PBool (dict_contains (book_db (globals st)) book)) ],
     st).
Proof. reflexivity. Qed.

Lemma check_availability_run ctx book st :
  check_availability ctx book st
  = (inr match book_db (globals st) !! book with
         | None => [ (py "title", PStr book);
                     (py "available_copies", PInt 0);
                     (py "note", PStr (py "Not in catalog.")) ]
         | Some copies => [ (py "title", PStr book);
                            (py "available_copies", PInt copies) ]
         end,
     st).
Proof.
  unfold check_availability.
  rewrite (bind_inr _ _ st _ _ (read_globals_run st)).
  rewrite dict_contains_lookup. unfold dict_getitem.
  by destruct (book_db (globals st) !! book).
Qed.

Lemma get_library_timings_run `{UnicodeTables} ctx day st :
  get_library_timings ctx day st
  = (inr [ (py "day", PStr day);
           (py "hours",
            PStr (dict_get (library_timings (globals st)) (lower day)
                    (py "Unknown day."))) ],
     st).
Proof. reflexivity. Qed.

Lemma is_member_allowed_run ctx st :
  is_member_allowed ctx st
  = (inr match context ctx with
         | None => false
         | Some uc =>
             match member_id uc with
             | None => false
             | Some m =>
                 if bool_decide (m = []) then false
                 else bool_decide (m ∈ valid_members (globals st))
             end
         end,
     st).
Proof. reflexivity. Qed.

(** Expose the handler of a tool of the library agent. *)
Ltac unfold_tool :=
  cbn [on_invoke_tool is_enabled tool_name search_book_tool
       check_availability_tool get_library_timings_tool function_tool default].

Lemma library_tools_read_only `{UnicodeTables} t :
  t ∈ library_tools → read_only t.
Proof.
  unfold library_tools. rewrite !elem_of_cons, elem_of_nil.
  intros [-> | [-> | [-> | []]]] ctx arg st; unfold_tool.
  - by rewrite search_book_run.
  - by rewrite check_availability_run.
  - by rewrite get_library_timings_run.
Qed.

(** C8: for day "Sunday" and any context the timings tool returns the
    Sunday hours of the schedule table; the key is the lower-cased day, so
    "Sunday" (and "SUNDAY") find the entry stored under "sunday". *)
Theorem get_library_timings_sunday `{UnicodeTables} ctx tr :
  let st := {| globals := module_globals; trace := tr |} in
  LIBRARY_TIMINGS !! py "sunday" = Some (hours "10:00" "14:00")
  ∧ lower (py "Sunday") = py "sunday"
  ∧ get_library_timings ctx (py "Sunday") st
    = (inr [ (py "day", PStr (py "Sunday"));
             (py "hours", PStr (hours "10:00" "14:00")) ], st)
  ∧ outcome (get_library_timings ctx (py "SUNDAY") st)
    = inr [ (py "day", PStr (py "SUNDAY"));
            (py "hours", PStr (hours "10:00" "14:00")) ].
Proof.
  intros st. split; [by vm_compute|]. split; [by vm_compute|].
  split; rewrite get_library_timings_run; unfold outcome; simpl;
    repeat f_equal; by vm_compute.
Qed.

(** C10: for a book that is not in the catalogue [check_availability]
    returns the title, zero copies and the note "Not in catalog."; for every
    string it returns a result and never raises (the [KeyError] of the
    subscript cannot occur). *)
Theorem check_availability_not_in_catalog ctx book st :
  (book_db (globals st) !! book = None →
     check_availability ctx book st
     = (inr [ (py "title", PStr book);
              (py "available_copies", PInt 0);
              (py "note", PStr (py "Not in catalog.")) ], st))
  ∧ (∃ d, check_availability ctx book st = (inr d, st)).
Proof.
  rewrite check_availability_run. split.
  - by intros ->.
  - by eexists.
Qed.

Lemma check_availability_not_in_catalog_witness :
  book_db (globals initial_state) !! py "Dune" = None
  ∧ check_availability {| context := None |} (py "Dune") initial_state
    = (inr [ (py "title", PStr (py "Dune"));
             (py "available_copies", PInt 0);
             (py "note", PStr (py "Not in catalog.")) ], initial_state).
Proof.
  split; [by vm_compute|].
  apply (proj1 (check_availability_not_in_catalog
                  {| context := None |} (py "Dune") initial_state)).
  by vm_compute.
Defined.

(** C9: every query tool is idempotent and deterministic.  An invocation
    returns a result that depends only on the argument and the store, and it
    leaves the state as it found it, so that a second invocation with the
    same argument and context returns the same result. *)
Theorem query_tools_idempotent `{UnicodeTables} t ctx arg st st' :
  t ∈ library_tools →
  globals st' = globals st →
  let first := on_invoke_tool t ctx arg st in
  let second := on_invoke_tool t ctx arg (final first) in
  final first = st
  ∧ second = first
  ∧ outcome (on_invoke_tool t ctx arg st') = outcome first.
Proof.
  intros Ht Hg first second.
  assert (Hro : final first = st) by by apply library_tools_read_only.
  split; [done|]. split; [unfold second; by rewrite Hro|].
  unfold first. revert Ht. unfold library_tools.
  rewrite !elem_of_cons, elem_of_nil.
  intros [-> | [-> | [-> | []]]]; unfold_tool.
  - by rewrite !search_book_run, Hg.
  - by rewrite !check_availability_run, Hg.
  - by rewrite !get_library_timings_run, Hg.
Qed.

Lemma query_tools_idempotent_witness :
  final (on_invoke_tool check_availability_tool
           {| context := Some user_context |} (py "Clean Code") initial_state)
  = initial_state
  ∧ on_invoke_tool check_availability_tool
      {| context := Some user_context |} (py "Clean Code")
      (final (on_invoke_tool check_availability_tool
                {| context := Some user_context |} (py "Clean Code")
                initial_state))
    = on_invoke_tool check_availability_tool
        {| context := Some user_context |} (py "Clean Code") initial_state
  ∧ outcome (on_invoke_tool check_availability_tool
               {| context := Some user_context |} (py "Clean Code")
               {| globals := module_globals;
                  trace := [EvToolRun (py "search_book") (py "Dune")] |})
    = outcome (on_invoke_tool check_availability_tool
                 {| context := Some user_context |} (py "Clean Code")
                 initial_state).
Proof.
  apply (@query_tools_idempotent ascii_only_tables check_availability_tool
           {| context := Some user_context |} (py "Clean Code") initial_state
           {| globals := module_globals;
              trace := [EvToolRun (py "search_book") (py "Dune")] |}).
  - unfold library_tools. rewrite !elem_of_cons. right. by left.
  - reflexivity.
Defined.

(** ** Visibility of the tools *)

Lemma resolveVisibleTools_cons t ts ctx st b rest :
  is_enabled t ctx st = (inr b, st) →
  resolveVisibleTools ts ctx st = (inr rest, st) →
  resolveVisibleTools (t :: ts) ctx st
  = (inr (if b then t :: rest else rest), st).
Proof.
  intros Ht Hts. cbn [resolveVisibleTools].
  rewrite (bind_inr _ _ _ _ _ Ht), (bind_inr _ _ _ _ _ Hts). done.
Qed.

Lemma resolveVisibleTools_library `{UnicodeTables} ctx st :
  resolveVisibleTools library_tools ctx st
  = (inr (if outcome (is_member_allowed ctx st) is inr true
          then [search_book_tool; check_availability_tool;
                get_library_timings_tool]
          else [search_book_tool; get_library_timings_tool]),
     st).
Proof.
  unfold library_tools.
  rewrite (resolveVisibleTools_cons search_book_tool _ ctx st true
             (if outcome (is_member_allowed ctx st) is inr true
              then [check_availability_tool; get_library_timings_tool]
              else [get_library_timings_tool])).
  - by destruct (outcome (is_member_allowed ctx st)) as [|[]].
  - done.
  - rewrite (resolveVisibleTools_cons check_availability_tool _ ctx st
               (if outcome (is_member_allowed ctx st) is inr true
                then true else false)
               [get_library_timings_tool]).
    + by destruct (outcome (is_member_allowed ctx st)) as [|[]].
    + unfold_tool. rewrite is_member_allowed_run. unfold outcome. simpl.
      by destruct (match context ctx with Some _ => _ | None => _ end).
    + by rewrite (resolveVisibleTools_cons get_library_timings_tool [] ctx st
                    true []).
Qed.

Lemma is_member_allowed_true ctx st :
  valid_members (globals st) = VALID_MEMBERS →
  outcome (is_member_allowed ctx st) = inr true
  ↔ has_valid_membership (globals st) ctx.
Proof.
  intros Hv. rewrite is_member_allowed_run. unfold outcome, has_valid_membership.
  simpl. split.
  - destruct (context ctx) as [uc|]; [|done].
    destruct (member_id uc) as [m|] eqn:Hm; [|done].
    case_bool_decide; [done|]. intros [= Hin%bool_decide_eq_true].
    by exists uc, m.
  - intros (uc & m & -> & -> & Hin).
    case_bool_decide as Hnil.
    + subst m. rewrite Hv in Hin. by vm_compute in Hin.
    + f_equal. by apply bool_decide_eq_true.
Qed.

(** ** The dispatch loop *)

Lemma find_tool_Some tname ts t :
  find_tool tname ts = Some t → t ∈ ts ∧ tool_name t = tname.
Proof.
  unfold find_tool. destruct (list_find _ ts) as [[i t']|] eqn:Hf; [|done].
  intros [= <-]. apply list_find_Some in Hf as (Hi & Hn & _).
  split; [by eapply list_elem_of_lookup_2|done].
Qed.

Lemma find_tool_None tname ts :
  find_tool tname ts = None ↔ tname ∉ tool_name <$> ts.
Proof.
  unfold find_tool. rewrite fmap_None, list_find_None, Forall_forall.
  rewrite list_elem_of_fmap. split.
  - intros Hall (t & -> & Ht). by apply (Hall t).
  - intros Hno t Ht Hn. apply Hno. by exists t.
Qed.

Lemma execute_tool_call_run visible ctx tname arg st :
  execute_tool_call visible ctx tname arg st
  = match find_tool tname visible with
    | None => (inr (ToolNotVisible tname), st)
    | Some t =>
        let r := on_invoke_tool t ctx arg (log_event st (EvToolRun tname arg)) in
        (inr match outcome r with
             | inl e => ToolErrorTurn tname e
             | inr d => ToolResultTurn tname d
             end,
         final r)
    end.
Proof.
  unfold execute_tool_call. destruct (find_tool tname visible) as [t|]; [|done].
  unfold mbind, M_bind, bind, emit, try_catch, outcome, final. simpl.
  by destruct (on_invoke_tool t ctx arg _) as [[e|d] st'].
Qed.

Lemma dispatch_loop_unfold rt agent visible ctx n conv st :
  dispatch_loop rt agent visible ctx n conv st
  = let req := {| req_instructions := instructions agent;
                  req_conversation := conv;
                  req_tools := tool_name <$> visible |} in
    let st1 := log_event st (EvModelCall (agent_name agent) req) in
    match model_gemini rt req with
    | inl e => (inl e, st1)
    | inr resp =>
        match resp_tool_call resp with
        | None => (inr (default [] (resp_text resp)), st1)
        | Some (tname, arg) =>
            match n with
            | O => (inl ToolLoopExceeded, st1)
            | S n' =>
                let r := execute_tool_call visible ctx tname arg st1 in
                match outcome r with
                | inl e => (inl e, final r)
                | inr fed =>
                    dispatch_loop rt agent visible ctx n'
                      (conv ++ [ToolCallTurn tname arg; fed]) (final r)
                end
            end
        end
    end.
Proof.
  destruct n; cbn [dispatch_loop]; unfold call_model, mbind, M_bind, bind, emit;
    simpl; destruct (model_gemini rt _) as [e|resp]; simpl; try done;
    destruct (resp_tool_call resp) as [[tname arg]|]; try done.
  unfold outcome, final.
  by destruct (execute_tool_call visible ctx tname arg _) as [[e|fed] st'].
Qed.

(** What a tool call adds to the state when the handlers are read-only. *)
Lemma execute_tool_call_events visible ctx tname arg st :
  Forall read_only visible →
  ∃ fed evs,
    execute_tool_call visible ctx tname arg st
    = (inr fed, {| globals := globals st; trace := trace st ++ evs |})
    ∧ (evs = [] ∨ (evs = [EvToolRun tname arg] ∧ tname ∈ tool_name <$> visible)).
Proof.
  intros Hro. rewrite execute_tool_call_run.
  destruct (find_tool tname visible) as [t|] eqn:Hf.
  - apply find_tool_Some in Hf as [Ht Hn].
    rewrite Forall_forall in Hro. simpl. rewrite (Hro t Ht).
    eexists _, [EvToolRun tname arg]. split; [done|]. right. split; [done|].
    apply list_elem_of_fmap. by exists t.
  - exists (ToolNotVisible tname), []. split; [|by left].
    destruct st. simpl. by rewrite app_nil_r.
Qed.

(** Every event of a run is a completion call offering exactly the visible
    tools, or the execution of a visible tool; the store is not changed. *)
Lemma dispatch_loop_events rt agent visible ctx n :
  Forall read_only visible →
  ∀ conv st, ∃ evs,
    let r := dispatch_loop rt agent visible ctx n conv st in
    final r = {| globals := globals st; trace := trace st ++ evs |}
    ∧ Forall (allowed_event agent visible) evs.
Proof.
  intros Hro. induction n as [|n IH]; intros conv st;
    rewrite dispatch_loop_unfold; cbv zeta;
    set (req := {| req_instructions := _ |});
    assert (Hreq : allowed_event agent visible (EvModelCall (agent_name agent) req))
      by done;
    destruct (model_gemini rt req) as [e|resp];
    try (by exists [EvModelCall (agent_name agent) req]; split; [|constructor]);
    destruct (resp_tool_call resp) as [[tname arg]|];
    try (by exists [EvModelCall (agent_name agent) req]; split; [|constructor]).
  destruct (execute_tool_call_events visible ctx tname arg
              (log_event st (EvModelCall (agent_name agent) req)) Hro)
    as (fed & evs1 & Hex & Hevs1).
  rewrite Hex. unfold outcome, final. cbn [fst snd].
  destruct (IH (conv ++ [ToolCallTurn tname arg; fed])
              {| globals := globals (log_event st (EvModelCall (agent_name agent) req));
                 trace := trace (log_event st (EvModelCall (agent_name agent) req)) ++ evs1 |})
    as (evs2 & Hfin & Hall).
  cbv zeta in Hfin. unfold final in Hfin.
  exists (EvModelCall (agent_name agent) req :: evs1 ++ evs2). split.
  - rewrite Hfin. simpl. f_equal. by rewrite <- !app_assoc.
  - constructor; [done|]. apply Forall_app. split; [|done].
    destruct Hevs1 as [-> | [-> Hin]]; by repeat constructor.
Qed.

Lemma count_events_app p evs1 evs2 :
  count_events p (evs1 ++ evs2) = (count_events p evs1 + count_events p evs2)%nat.
Proof. unfold count_events. by rewrite List.filter_app, length_app. Qed.

(** Against a service that always asks for a tool the loop fails with
    [ToolLoopExceeded], whatever the handlers do. *)
Lemma dispatch_loop_exceeds_outcome rt agent visible ctx n :
  always_requests_tool rt agent →
  ∀ conv st,
    outcome (dispatch_loop rt agent visible ctx n conv st) = inl ToolLoopExceeded.
Proof.
  intros Halways. induction n as [|n IH]; intros conv st;
    rewrite dispatch_loop_unfold; cbv zeta;
    set (req := {| req_instructions := _ |});
    destruct (Halways req eq_refl) as (text & [tname arg] & ->);
    cbn [resp_tool_call]; [done|].
  rewrite execute_tool_call_run.
  destruct (find_tool tname visible); cbn [outcome final fst snd]; apply IH.
Qed.

(** With read-only handlers, such a run makes one completion call more than
    the bound and executes at most as many tools as the bound. *)
Lemma dispatch_loop_exceeds rt agent visible ctx n :
  always_requests_tool rt agent →
  Forall read_only visible →
  ∀ conv st, ∃ evs,
    dispatch_loop rt agent visible ctx n conv st
    = (inl ToolLoopExceeded,
       {| globals := globals st; trace := trace st ++ evs |})
    ∧ count_events is_model_call evs = S n
    ∧ (count_events is_tool_run evs ≤ n)%nat.
Proof.
  intros Halways Hro. induction n as [|n IH]; intros conv st;
    rewrite dispatch_loop_unfold; cbv zeta;
    set (req := {| req_instructions := _ |});
    destruct (Halways req eq_refl) as (text & [tname arg] & ->);
    cbn [resp_tool_call].
  - by exists [EvModelCall (agent_name agent) req].
  - destruct (execute_tool_call_events visible ctx tname arg
                (log_event st (EvModelCall (agent_name agent) req)) Hro)
      as (fed & evs1 & -> & Hevs1).
    cbn [outcome final fst snd].
    edestruct IH as (evs2 & -> & Hm & Ht).
    exists (EvModelCall (agent_name agent) req :: evs1 ++ evs2).
    split; [simpl; by rewrite <- !app_assoc|].
    change (EvModelCall (agent_name agent) req :: evs1 ++ evs2)
      with ([EvModelCall (agent_name agent) req] ++ evs1 ++ evs2).
    rewrite !count_events_app, Hm.
    destruct Hevs1 as [-> | [-> _]]; unfold count_events in *; simpl; split; lia.
Qed.

(** ** Runs of the two agents *)

Lemma mret_run {A} (x : A) st : @mret M M_ret A x st = (inr x, st).
Proof. reflexivity. Qed.

Lemma bind_run {A B} (m : M A) (k : A → M B) st :
  (m ≫= k) st
  = match outcome (m st) with
    | inl e => (inl e, final (m st))
    | inr x => k x (final (m st))
    end.
Proof.
  unfold mbind, M_bind, bind, outcome, final. by destruct (m st) as [[e|x] st'].
Qed.

Lemma Runner_run_guardrail_agent rt input ctx st :
  Runner_run rt guardrail_agent input ctx st
  = let r := dispatch_loop rt guardrail_agent [] ctx (max_tool_round_trips rt)
               [UserTurn input] st in
    (match outcome r with
     | inl e => inl e
     | inr text => inr {| final_output := text |}
     end, final r).
Proof.
  unfold Runner_run, mbind, M_bind, bind, outcome, final. simpl.
  by destruct (dispatch_loop rt guardrail_agent [] ctx _ _ st) as [[e|text] st'].
Qed.

(** The classification logs completion calls of the guardrail agent, with
    no tool offered, and nothing else. *)
Lemma Runner_run_guardrail_agent_events rt input ctx st :
  ∃ evs,
    final (Runner_run rt guardrail_agent input ctx st)
    = {| globals := globals st; trace := trace st ++ evs |}
    ∧ Forall (allowed_event guardrail_agent []) evs.
Proof.
  rewrite Runner_run_guardrail_agent. cbv zeta. cbn [final snd].
  apply (dispatch_loop_events rt guardrail_agent [] ctx). constructor.
Qed.

Lemma library_input_guardrail_run `{UnicodeTables} rt ctx msg st :
  library_input_guardrail rt ctx msg st
  = let r := Runner_run rt guardrail_agent msg {| context := None |} st in
    (match outcome r with
     | inl e => inl e
     | inr result =>
         if bool_decide (upper (strip (final_output result)) ≠ py "ALLOW")
         then inl (ValueError refusal_message)
         else inr tt
     end, final r).
Proof.
  unfold library_input_guardrail, mbind, M_bind, bind, outcome, final.
  destruct (Runner_run rt guardrail_agent msg _ st) as [[e|result] st'];
    [done|]. cbn [fst snd]. by case_bool_decide.
Qed.

(** One guardrail: the run goes on when it returns, and is rejected with
    the fixed refusal when it raises, whatever it raises. *)
Lemma run_input_guardrails_one guard ctx input st :
  run_input_guardrails [guard] ctx input st
  = (match outcome (guard ctx input st) with
     | inl _ => inl (ValueError refusal_message)
     | inr _ => inr tt
     end, final (guard ctx input st)).
Proof.
  cbn [run_input_guardrails]. rewrite bind_run.
  unfold try_catch, outcome, final.
  by destruct (guard ctx input st) as [[e|[]] st'].
Qed.

Lemma Runner_run_library `{UnicodeTables} rt input ctx st :
  Runner_run rt (library_agent rt) input ctx st
  = let g := library_input_guardrail rt ctx input st in
    match outcome g with
    | inl _ => (inl (ValueError refusal_message), final g)
    | inr _ =>
        let visible :=
          if outcome (is_member_allowed ctx (final g)) is inr true
          then [search_book_tool; check_availability_tool;
                get_library_timings_tool]
          else [search_book_tool; get_library_timings_tool] in
        let r := dispatch_loop rt (library_agent rt) visible ctx
                   (max_tool_round_trips rt) [UserTurn input] (final g) in
        (match outcome r with
         | inl e => inl e
         | inr text => inr {| final_output := text |}
         end, final r)
    end.
Proof.
  unfold Runner_run. cbv zeta. cbn [input_guardrails tools library_agent].
  rewrite bind_run, run_input_guardrails_one.
  destruct (library_input_guardrail rt _ _ st) as [[e|[]] st1];
    cbn [outcome final fst snd]; [done|].
  rewrite bind_run, resolveVisibleTools_library. cbn [outcome final fst snd].
  rewrite bind_run. unfold outcome, final.
  by destruct (dispatch_loop rt _ _ _ _ _ st1) as [[e|text] st2].
Qed.

Lemma handle_query_run `{UnicodeTables} rt prompt uc st :
  handle_query rt prompt uc st
  = let ctx := {| context := Some uc |} in
    let input := personalized_prompt prompt uc in
    let g := library_input_guardrail rt ctx input st in
    match outcome g with
    | inl _ => (inl (ValueError refusal_message), final g)
    | inr _ =>
        let visible :=
          if outcome (is_member_allowed ctx (final g)) is inr true
          then [search_book_tool; check_availability_tool;
                get_library_timings_tool]
          else [search_book_tool; get_library_timings_tool] in
        let r := dispatch_loop rt (library_agent rt) visible ctx
                   (max_tool_round_trips rt) [UserTurn input] (final g) in
        (match outcome r with
         | inl e => inl e
         | inr text => inr {| final_output := text |}
         end, final r)
    end.
Proof. unfold handle_query. apply Runner_run_library. Qed.

Lemma library_input_guardrail_events `{UnicodeTables} rt ctx msg st :
  ∃ evs,
    final (library_input_guardrail rt ctx msg st)
    = {| globals := globals st; trace := trace st ++ evs |}
    ∧ Forall (allowed_event guardrail_agent []) evs.
Proof.
  rewrite library_input_guardrail_run. cbv zeta. cbn [final snd].
  apply Runner_run_guardrail_agent_events.
Qed.

Lemma guardrail_event_kinds ev :
  allowed_event guardrail_agent [] ev →
  is_tool_run ev = false ∧ is_model_call_of (py "library-assistant") ev = false.
Proof.
  destruct ev as [a req|t arg]; simpl.
  - intros [-> _]. split; [done|]. by apply bool_decide_eq_false.
  - by intros ?%elem_of_nil.
Qed.

(** ** The guardrail *)

(** C2: the guardrail trims the answer of the guardrail agent and
    upper-cases it before it compares it with "ALLOW".  Every answer is white
    space around a trimmed word; whatever the white space, the answer is
    refused with the [ValueError] when the upper-cased word is not "ALLOW"
    and passes when it is, and for an ASCII word that is when its letters,
    in any case, spell ALLOW.  Nothing else passes. *)
Theorem library_input_guardrail_fail_closed `{UnicodeTables}
    rt ctx msg st result st1 :
  Runner_run rt guardrail_agent msg {| context := None |} st = (inr result, st1) →
  (∃ l w r, final_output result = l ++ w ++ r
            ∧ blank l ∧ blank r ∧ trimmed w)
  ∧ ∀ l w r,
      final_output result = l ++ w ++ r → blank l → blank r → trimmed w →
      (upper w ≠ py "ALLOW" →
         library_input_guardrail rt ctx msg st
         = (inl (ValueError refusal_message), st1))
      ∧ (upper w = py "ALLOW" →
         library_input_guardrail rt ctx msg st = (inr tt, st1))
      ∧ (ascii_only w →
         (library_input_guardrail rt ctx msg st = (inr tt, st1)
          ↔ ascii_upper <$> w = py "ALLOW")).
Proof.
  intros Hrun. split.
  { destruct (strip_split (final_output result)) as (l & r & Hsplit & Hl & Hr).
    exists l, (strip (final_output result)), r. repeat split; try done;
      apply strip_ends. }
  intros l w r Hsplit Hl Hr [Hfirst Hlast].
  rewrite library_input_guardrail_run, Hrun. cbn [outcome final fst snd].
  rewrite Hsplit, (strip_trim l w r Hl Hr Hfirst Hlast).
  case_bool_decide as Hn.
  - split; [done|]. split; [intros Heq; by destruct Hn|].
    intros Hw. rewrite (upper_ascii_only w Hw) in Hn. by split.
  - assert (Heq : upper w = py "ALLOW").
    { destruct (decide (upper w = py "ALLOW")); [done|by destruct Hn]. }
    split; [intros Hne; by destruct (Hne Heq)|]. split; [done|].
    intros Hw. rewrite (upper_ascii_only w Hw) in Heq. by split.
Qed.

(** The answers the guardrail lets through and some it refuses. *)
Example normal_form_examples :
  @upper ascii_only_tables (strip (py "ALLOW")) = py "ALLOW"
  ∧ @upper ascii_only_tables (strip ([9; 160] ++ py "Allow " ++ [10])) = py "ALLOW"
  ∧ @upper ascii_only_tables (strip (py "ALLOW.")) ≠ py "ALLOW"
  ∧ @upper ascii_only_tables (strip (py "A L L O W")) ≠ py "ALLOW"
  ∧ @upper ascii_only_tables (strip (py "BLOCK")) ≠ py "ALLOW"
  ∧ @upper ascii_only_tables (strip []) ≠ py "ALLOW".
Proof. repeat split; by vm_compute. Qed.

Lemma library_input_guardrail_fail_closed_witness :
  @library_input_guardrail ascii_only_tables
    (scripted_runtime (inr ([9] ++ py " allow" ++ [10])))
    {| context := None |} (py "hello") initial_state
  = (inr tt,
     final (Runner_run (scripted_runtime (inr ([9] ++ py " allow" ++ [10])))
              guardrail_agent (py "hello") {| context := None |}
              initial_state))
  ∧ @library_input_guardrail ascii_only_tables
      (scripted_runtime (inr (py " ALLOW, of course")))
      {| context := None |} (py "hello") initial_state
    = (inl (ValueError refusal_message),
       final (Runner_run (scripted_runtime (inr (py " ALLOW, of course")))
                guardrail_agent (py "hello") {| context := None |}
                initial_state)).
Proof.
  split.
  - assert (Hrun : Runner_run
                     (scripted_runtime (inr ([9] ++ py " allow" ++ [10])))
                     guardrail_agent (py "hello") {| context := None |}
                     initial_state
                   = (inr {| final_output := [9] ++ py " allow" ++ [10] |},
                      final (Runner_run
                               (scripted_runtime
                                  (inr ([9] ++ py " allow" ++ [10])))
                               guardrail_agent (py "hello")
                               {| context := None |} initial_state)))
      by (vm_compute; reflexivity).
    apply (proj2 (@library_input_guardrail_fail_closed ascii_only_tables
                    _ {| context := None |} _ _ _ _ Hrun)
             ([9] ++ py " ") (py "allow") [10]).
    + reflexivity.
    + by repeat constructor.
    + by repeat constructor.
    + apply trimmed_head_last; by vm_compute.
    + repeat constructor; by vm_compute.
    + by vm_compute.
  - assert (Hrun : Runner_run
                     (scripted_runtime (inr (py " ALLOW, of course")))
                     guardrail_agent (py "hello") {| context := None |}
                     initial_state
                   = (inr {| final_output := py " ALLOW, of course" |},
                      final (Runner_run
                               (scripted_runtime
                                  (inr (py " ALLOW, of course")))
                               guardrail_agent (py "hello")
                               {| context := None |} initial_state)))
      by (vm_compute; reflexivity).
    apply (proj2 (@library_input_guardrail_fail_closed ascii_only_tables
                    _ {| context := None |} _ _ _ _ Hrun)
             (py " ") (py "ALLOW, of course") []).
    + reflexivity.
    + by repeat constructor.
    + constructor.
    + apply trimmed_head_last; by vm_compute.
    + by vm_compute.
Defined.

(** ** A refused turn *)

(** C3: when the classification of the prompt is not "ALLOW", and also
    when the classifier itself fails, the turn logs only the completion calls
    of the guardrail agent: no tool handler runs and the library assistant,
    the agent that is offered the tools, is never called.  In both cases the
    caller receives the fixed refusal, never the failure of the classifier,
    and the loop of [run_loop] prints the refusal. *)
Theorem refused_turn_runs_no_tool `{UnicodeTables} rt prompt uc st :
  let input := personalized_prompt prompt uc in
  let cls := Runner_run rt guardrail_agent input {| context := None |} st in
  (∃ result, outcome cls = inr result
             ∧ upper (strip (final_output result)) ≠ py "ALLOW")
  ∨ (∃ e, outcome cls = inl e) →
  handle_query rt prompt uc st = (inl (ValueError refusal_message), final cls)
  ∧ (∃ evs, final cls = {| globals := globals st; trace := trace st ++ evs |}
            ∧ Forall refusal_path_event evs)
  ∧ (∀ line, strip line = prompt → prompt ≠ [] →
       run_loop_step rt uc line st
       = (inr (Some (ErrorLine (ValueError refusal_message))), final cls)).
Proof.
  intros input cls. subst cls.
  destruct (Runner_run_guardrail_agent_events rt input {| context := None |} st)
    as (evs & Hfin & Hall).
  destruct (Runner_run rt guardrail_agent input {| context := None |} st)
    as [o st'] eqn:Hc.
  cbn [outcome final fst snd] in *. intros Hcls.
  assert (Hq : handle_query rt prompt uc st
               = (inl (ValueError refusal_message), st')).
  { rewrite handle_query_run. cbv zeta. rewrite library_input_guardrail_run.
    cbv zeta. fold input. rewrite Hc. cbn [outcome final fst snd].
    destruct Hcls as [(result & -> & Hne) | (e & ->)]; [|done].
    by rewrite bool_decide_eq_true_2. }
  split; [done|]. split.
  - exists evs. split; [done|].
    eapply Forall_impl; [exact Hall|]. apply guardrail_event_kinds.
  - intros line Hline Hprompt. unfold run_loop_step. cbv zeta.
    rewrite Hline, bool_decide_eq_false_2 by done.
    rewrite bind_run. unfold try_catch. by rewrite Hq.
Qed.

Lemma refused_turn_runs_no_tool_witness :
  @handle_query ascii_only_tables (scripted_runtime (inr (py "BLOCK")))
    (py "Who will win the next election?") user_context initial_state
  = (inl (ValueError refusal_message),
     final (Runner_run (scripted_runtime (inr (py "BLOCK"))) guardrail_agent
              (personalized_prompt (py "Who will win the next election?")
                 user_context)
              {| context := None |} initial_state))
  ∧ @handle_query ascii_only_tables
      (scripted_runtime (inl (ServiceFailure (py "timeout"))))
      (py "Is Dune available?") user_context initial_state
    = (inl (ValueError refusal_message),
       final (Runner_run
                (scripted_runtime (inl (ServiceFailure (py "timeout"))))
                guardrail_agent
                (personalized_prompt (py "Is Dune available?") user_context)
                {| context := None |} initial_state)).
Proof.
  split.
  - apply (@refused_turn_runs_no_tool ascii_only_tables
             (scripted_runtime (inr (py "BLOCK")))
             (py "Who will win the next election?") user_context
             initial_state).
    left. exists {| final_output := py "BLOCK" |}. split; by vm_compute.
  - apply (@refused_turn_runs_no_tool ascii_only_tables
             (scripted_runtime (inl (ServiceFailure (py "timeout"))))
             (py "Is Dune available?") user_context initial_state).
    right. exists (ServiceFailure (py "timeout")). by vm_compute.
Defined.

(** ** The bound on tool round-trips *)

Lemma guardrail_events_count gevs :
  Forall (allowed_event guardrail_agent []) gevs →
  count_events is_tool_run gevs = 0%nat
  ∧ count_events (is_model_call_of (py "library-assistant")) gevs = 0%nat.
Proof.
  unfold count_events. induction 1 as [|ev gevs Hev _ [IHt IHm]]; [done|].
  apply guardrail_event_kinds in Hev as [Ht Hm]. simpl. by rewrite Ht, Hm.
Qed.

Lemma allowed_events_count agent visible evs :
  Forall (allowed_event agent visible) evs →
  count_events (is_model_call_of (agent_name agent)) evs
  = count_events is_model_call evs.
Proof.
  unfold count_events. induction 1 as [|[a req|t arg] evs Hev _ IH]; [done| |].
  - destruct Hev as [-> _]. simpl. rewrite bool_decide_eq_true_2 by done.
    simpl. by rewrite IH.
  - done.
Qed.

(** C4: against a completion service that asks for a tool on every
    round-trip the dispatch loop of any agent ends with [ToolLoopExceeded];
    the loop is a structural recursion on the bound, so it returns for every
    service.  A turn that passed the guardrail then fails with
    [ToolLoopExceeded] after one completion call more than the configured
    bound and at most as many tool executions as the bound. *)
Theorem handle_query_tool_loop_exceeded `{UnicodeTables} rt prompt uc st :
  always_requests_tool rt (library_agent rt) →
  outcome (library_input_guardrail rt {| context := Some uc |}
             (personalized_prompt prompt uc) st) = inr tt →
  (∃ evs,
     handle_query rt prompt uc st
     = (inl ToolLoopExceeded,
        {| globals := globals st; trace := trace st ++ evs |})
     ∧ count_events (is_model_call_of (py "library-assistant")) evs
       = S (max_tool_round_trips rt)
     ∧ (count_events is_tool_run evs ≤ max_tool_round_trips rt)%nat)
  ∧ (∀ agent visible ctx conv st',
       always_requests_tool rt agent →
       outcome (dispatch_loop rt agent visible ctx (max_tool_round_trips rt)
                  conv st') = inl ToolLoopExceeded).
Proof.
  intros Halways Hpass. split; [|intros; by apply dispatch_loop_exceeds_outcome].
  rewrite handle_query_run. cbv zeta.
  destruct (library_input_guardrail_events rt {| context := Some uc |}
              (personalized_prompt prompt uc) st) as (gevs & Hg & Hgall).
  destruct (guardrail_events_count gevs Hgall) as [Hgt Hgm].
  destruct (library_input_guardrail rt _ _ st) as [o st1].
  cbn [outcome final fst snd] in *. subst o st1.
  match goal with
  | |- context [dispatch_loop rt _ ?v _ _ _ _] => set (visible := v)
  end.
  assert (Hro : Forall read_only visible).
  { apply Forall_forall. intros t Ht. apply library_tools_read_only.
    unfold library_tools. revert Ht. unfold visible.
    destruct (outcome (is_member_allowed _ _)) as [|[]];
      rewrite !elem_of_cons, !elem_of_nil; tauto. }
  destruct (dispatch_loop_exceeds rt (library_agent rt) visible
              {| context := Some uc |} (max_tool_round_trips rt) Halways Hro
              [UserTurn (personalized_prompt prompt uc)]
              {| globals := globals st; trace := trace st ++ gevs |})
    as (levs & Hloop & Hm & Ht).
  destruct (dispatch_loop_events rt (library_agent rt) visible
              {| context := Some uc |} (max_tool_round_trips rt) Hro
              [UserTurn (personalized_prompt prompt uc)]
              {| globals := globals st; trace := trace st ++ gevs |})
    as (levs' & Hfin & Hall).
  cbv zeta in Hfin. rewrite Hloop in Hfin. cbn [final snd globals trace] in Hfin.
  injection Hfin as Hfin%app_inv_head. subst levs'.
  rewrite Hloop. cbn [fst snd globals trace].
  exists (gevs ++ levs). rewrite <- app_assoc. split; [done|].
  rewrite !count_events_app, Hgt, Hgm.
  rewrite <- Hm, <- (allowed_events_count _ _ _ Hall). split; [done|lia].
Qed.

Lemma scripted_runtime_always_requests_tool `{UnicodeTables} guard_answer :
  always_requests_tool (scripted_runtime guard_answer)
    (library_agent (scripted_runtime guard_answer)).
Proof.
  intros req Hreq. exists None, (py "search_book", py "Dune").
  unfold scripted_runtime. cbn [model_gemini].
  rewrite bool_decide_eq_false_2; [done|]. rewrite Hreq. by vm_compute.
Qed.

Lemma handle_query_tool_loop_exceeded_witness :
  ∃ evs,
    @handle_query ascii_only_tables (scripted_runtime (inr (py "ALLOW")))
      (py "Do you have Dune?") user_context initial_state
    = (inl ToolLoopExceeded,
       {| globals := globals initial_state;
          trace := trace initial_state ++ evs |})
    ∧ count_events (is_model_call_of (py "library-assistant")) evs = 9%nat
    ∧ (count_events is_tool_run evs ≤ 8)%nat.
Proof.
  apply (@handle_query_tool_loop_exceeded ascii_only_tables
           (scripted_runtime (inr (py "ALLOW")))
           (py "Do you have Dune?") user_context initial_state).
  - apply scripted_runtime_always_requests_tool.
  - by vm_compute.
Defined.

(** ** What a turn logs *)

Lemma is_member_allowed_globals ctx st' st :
  globals st' = globals st →
  outcome (is_member_allowed ctx st') = outcome (is_member_allowed ctx st).
Proof. intros Hg. rewrite !is_member_allowed_run. unfold outcome. simpl. by rewrite Hg. Qed.

(** A turn logs the completion calls of the classification, then completion
    calls of the library assistant that offer exactly the visible tools, and
    executions of visible tools. *)
Lemma handle_query_events `{UnicodeTables} rt prompt uc st :
  ∃ visible gevs levs,
    resolveVisibleTools library_tools {| context := Some uc |} st
    = (inr visible, st)
    ∧ final (handle_query rt prompt uc st)
      = {| globals := globals st; trace := trace st ++ gevs ++ levs |}
    ∧ Forall (allowed_event guardrail_agent []) gevs
    ∧ Forall (allowed_event (library_agent rt) visible) levs.
Proof.
  rewrite handle_query_run, resolveVisibleTools_library. cbv zeta.
  destruct (library_input_guardrail_events rt {| context := Some uc |}
              (personalized_prompt prompt uc) st) as (gevs & Hg & Hgall).
  destruct (library_input_guardrail rt _ _ st) as [o st1].
  cbn [outcome final fst snd] in *. subst st1.
  eexists _, gevs. destruct o as [e|[]].
  - exists []. rewrite app_nil_r. cbn [snd]. by repeat split.
  - rewrite (is_member_allowed_globals _
               {| globals := globals st; trace := trace st ++ gevs |} st) by done.
    match goal with
    | |- context [dispatch_loop rt _ ?v _ _ _ _] => set (visible := v)
    end.
    assert (Hro : Forall read_only visible).
    { apply Forall_forall. intros t Ht. apply library_tools_read_only.
      unfold library_tools. revert Ht. unfold visible.
      destruct (outcome (is_member_allowed _ st)) as [|[]];
        rewrite !elem_of_cons, !elem_of_nil; tauto. }
    destruct (dispatch_loop_events rt (library_agent rt) visible
                {| context := Some uc |} (max_tool_round_trips rt) Hro
                [UserTurn (personalized_prompt prompt uc)]
                {| globals := globals st; trace := trace st ++ gevs |})
      as (levs & Hl & Hlall).
    cbv zeta in Hl. exists levs. cbn [snd]. rewrite Hl. cbn [globals trace].
    rewrite <- app_assoc. by repeat split.
Qed.

(** ** The membership gate *)

(** C1: the gated tool [check_availability] is visible exactly when the
    context carries a member id of [VALID_MEMBERS].  Without one, its name
    is in no list of tools offered to the completion service during a turn,
    a call by name yields [ToolNotVisible] and no handler runs; with one, it
    is offered and a call by name runs the handler. *)
Theorem check_availability_gate `{UnicodeTables} rt ctx st :
  valid_members (globals st) = VALID_MEMBERS →
  ∃ visible,
    resolveVisibleTools library_tools ctx st = (inr visible, st)
    ∧ (py "check_availability" ∈ tool_name <$> visible
       ↔ has_valid_membership (globals st) ctx)
    ∧ (¬ has_valid_membership (globals st) ctx →
       (∀ arg,
          execute_tool_call visible ctx (py "check_availability") arg st
          = (inr (ToolNotVisible (py "check_availability")), st))
       ∧ (∀ prompt uc, ctx = {| context := Some uc |} →
            ∃ evs,
              final (handle_query rt prompt uc st)
              = {| globals := globals st; trace := trace st ++ evs |}
              ∧ Forall (λ ev,
                   match ev with
                   | EvModelCall _ req =>
                       py "check_availability" ∉ req_tools req
                   | EvToolRun t _ => t ≠ py "check_availability"
                   end) evs))
    ∧ (has_valid_membership (globals st) ctx →
       ∀ arg,
         let st1 := log_event st (EvToolRun (py "check_availability") arg) in
         ∃ d,
           check_availability ctx arg st1 = (inr d, st1)
           ∧ execute_tool_call visible ctx (py "check_availability") arg st
             = (inr (ToolResultTurn (py "check_availability") d), st1)).
Proof.
  intros Hv. eexists. split; [apply resolveVisibleTools_library|].
  pose proof (is_member_allowed_true ctx st Hv) as Hiff.
  destruct (outcome (is_member_allowed ctx st)) as [e|[]] eqn:Hm.
  - (* the predicate does not raise *)
    rewrite is_member_allowed_run in Hm. done.
  - (* a valid member *)
    assert (Hvalid : has_valid_membership (globals st) ctx) by by apply Hiff.
    assert (Hin : py "check_availability"
                  ∈ tool_name <$> [search_book_tool; check_availability_tool;
                                   get_library_timings_tool]).
    { cbn [fmap list_fmap]. rewrite !elem_of_cons. right. by left. }
    split; [by split|].
    split; [done|]. intros _ arg st1. rewrite execute_tool_call_run.
    assert (Hf : find_tool (py "check_availability")
                   [search_book_tool; check_availability_tool;
                    get_library_timings_tool]
                 = Some check_availability_tool) by by vm_compute.
    rewrite Hf. unfold_tool. fold st1. rewrite check_availability_run.
    eexists. split; reflexivity.
  - (* a guest *)
    assert (Hguest : ¬ has_valid_membership (globals st) ctx).
    { intros Hvalid. apply Hiff in Hvalid. done. }
    assert (Hnot : py "check_availability"
                   ∉ tool_name <$> [search_book_tool; get_library_timings_tool]).
    { unfold_tool. cbn [fmap list_fmap]. unfold_tool.
      rewrite !not_elem_of_cons. repeat split; try by vm_compute.
      apply not_elem_of_nil. }
    split; [split; [done|by intros ?]|]. split; [|done]. intros _. split.
    + intros arg. rewrite execute_tool_call_run.
      by rewrite (proj2 (find_tool_None _ _) Hnot).
    + intros prompt uc ->.
      destruct (handle_query_events rt prompt uc st)
        as (visible & gevs & levs & Hvis & Hfin & Hg & Hl).
      rewrite resolveVisibleTools_library, Hm in Hvis.
      injection Hvis as <-.
      exists (gevs ++ levs). split; [done|]. apply Forall_app. split.
      * eapply Forall_impl; [exact Hg|]. intros [a req|t arg]; simpl.
        -- intros [_ ->]. apply not_elem_of_nil.
        -- by intros ?%elem_of_nil.
      * eapply Forall_impl; [exact Hl|]. intros [a req|t arg]; simpl.
        -- intros [_ ->]. exact Hnot.
        -- intros Hin ->. by apply Hnot.
Qed.

Lemma check_availability_gate_witness :
  ∃ visible,
    resolveVisibleTools (@library_tools ascii_only_tables)
      {| context := Some user_context |} initial_state
    = (inr visible, initial_state)
    ∧ (py "check_availability" ∈ tool_name <$> visible
       ↔ has_valid_membership (globals initial_state)
           {| context := Some user_context |}).
Proof.
  destruct (@check_availability_gate ascii_only_tables
              (scripted_runtime (inr (py "ALLOW")))
              {| context := Some user_context |} initial_state eq_refl)
    as (visible & Hvis & Hiff & _).
  exists visible. by split.
Defined.

(** C7: [search_book] and [get_library_timings] carry no visibility
    predicate.  For every context, with or without a user and a member id,
    both are among the visible tools, and every completion call made for the
    library assistant during a turn offers both. *)
Theorem ungated_tools_always_visible `{UnicodeTables} rt ctx uc prompt st :
  is_enabled search_book_tool ctx st = (inr true, st)
  ∧ is_enabled get_library_timings_tool ctx st = (inr true, st)
  ∧ (∃ visible,
       resolveVisibleTools library_tools ctx st = (inr visible, st)
       ∧ search_book_tool ∈ visible
       ∧ get_library_timings_tool ∈ visible)
  ∧ (∃ evs,
       final (handle_query rt prompt uc st)
       = {| globals := globals st; trace := trace st ++ evs |}
       ∧ Forall (λ ev,
            match ev with
            | EvModelCall a req =>
                if bool_decide (a = py "library-assistant")
                then py "search_book" ∈ req_tools req
                     ∧ py "get_library_timings" ∈ req_tools req
                else True
            | EvToolRun _ _ => True
            end) evs).
Proof.
  split; [done|]. split; [done|]. split.
  - eexists. split; [apply resolveVisibleTools_library|].
    destruct (outcome (is_member_allowed ctx st)) as [|[]];
      rewrite !elem_of_cons; tauto.
  - destruct (handle_query_events rt prompt uc st)
      as (visible & gevs & levs & Hvis & Hfin & Hg & Hl).
    assert (Hnames : py "search_book" ∈ tool_name <$> visible
                     ∧ py "get_library_timings" ∈ tool_name <$> visible).
    { rewrite resolveVisibleTools_library in Hvis.
      destruct (outcome (is_member_allowed _ st)) as [|[]];
        injection Hvis as <-; cbn [fmap list_fmap];
        rewrite !elem_of_cons; tauto. }
    exists (gevs ++ levs). split; [done|]. apply Forall_app. split.
    + eapply Forall_impl; [exact Hg|]. intros [a req|t arg]; simpl; [|done].
      intros [-> _]. by rewrite bool_decide_eq_false_2.
    + eapply Forall_impl; [exact Hl|]. intros [a req|t arg]; simpl; [|done].
      intros [_ ->]. by case_bool_decide.
Qed.

(** ** A member id outside the valid set *)

Lemma dispatch_loop_ctx rt agent visible ctx1 ctx2 n :
  (∀ t, t ∈ visible →
     ∀ arg st, on_invoke_tool t ctx1 arg st = on_invoke_tool t ctx2 arg st) →
  ∀ conv st,
    dispatch_loop rt agent visible ctx1 n conv st
    = dispatch_loop rt agent visible ctx2 n conv st.
Proof.
  intros Hsame. induction n as [|n IH]; intros conv st;
    rewrite !dispatch_loop_unfold; cbv zeta; [done|].
  destruct (model_gemini rt _) as [e|resp]; [done|].
  destruct (resp_tool_call resp) as [[tname arg]|]; [|done].
  rewrite !execute_tool_call_run.
  destruct (find_tool tname visible) as [t|] eqn:Hf.
  - apply find_tool_Some in Hf as [Ht _]. rewrite (Hsame t Ht).
    cbn [outcome final fst snd]. apply IH.
  - cbn [outcome final fst snd]. apply IH.
Qed.

Lemma is_member_allowed_invalid who mid st :
  mid ∉ valid_members (globals st) →
  is_member_allowed {| context := Some {| name := who; member_id := Some mid |} |} st
  = (inr false, st).
Proof.
  intros Hmid. rewrite is_member_allowed_run. cbn [context member_id].
  case_bool_decide; [done|]. by rewrite bool_decide_eq_false_2.
Qed.

(** C5: a member id that is present but not in the valid set (the string
    "None" of [run_loop] is one) raises nothing.  The membership check
    answers false as it does without an id, the visible tools are the two of
    a guest, and a run of the library assistant is the same as the run for
    the same user without an id. *)
Theorem invalid_member_id_is_guest `{UnicodeTables} rt who mid st :
  mid ∉ valid_members (globals st) →
  let bad := {| name := who; member_id := Some mid |} in
  let guest := {| name := who; member_id := None |} in
  is_member_allowed {| context := Some bad |} st = (inr false, st)
  ∧ is_member_allowed {| context := Some guest |} st = (inr false, st)
  ∧ resolveVisibleTools library_tools {| context := Some bad |} st
    = (inr [search_book_tool; get_library_timings_tool], st)
  ∧ resolveVisibleTools library_tools {| context := Some guest |} st
    = (inr [search_book_tool; get_library_timings_tool], st)
  ∧ (∀ input,
       Runner_run rt (library_agent rt) input {| context := Some bad |} st
       = Runner_run rt (library_agent rt) input {| context := Some guest |} st)
  ∧ (mid = py "None" →
     ∀ prompt, handle_query rt prompt bad st = handle_query rt prompt guest st).
Proof.
  intros Hmid bad guest.
  assert (Hbad : ∀ st', globals st' = globals st →
            is_member_allowed {| context := Some bad |} st' = (inr false, st')).
  { intros st' Hg. apply is_member_allowed_invalid. by rewrite Hg. }
  assert (Hrun : ∀ input,
            Runner_run rt (library_agent rt) input {| context := Some bad |} st
            = Runner_run rt (library_agent rt) input {| context := Some guest |} st).
  { intros input. rewrite !Runner_run_library. cbv zeta.
    change (library_input_guardrail rt {| context := Some bad |} input st)
      with (library_input_guardrail rt {| context := Some guest |} input st).
    destruct (library_input_guardrail_events rt {| context := Some guest |}
                input st) as (gevs & Hfin & _).
    destruct (outcome (library_input_guardrail rt _ input st)); [done|].
    rewrite Hbad by by rewrite Hfin.
    change (outcome (is_member_allowed {| context := Some guest |} _))
      with (@inr exn bool false). cbn [outcome fst].
    rewrite (dispatch_loop_ctx rt _ _ {| context := Some bad |}
               {| context := Some guest |}); [done|].
    intros t. rewrite !elem_of_cons, elem_of_nil.
    by intros [-> | [-> | []]]. }
  split; [by apply Hbad|]. split; [done|]. split.
  { rewrite resolveVisibleTools_library. by rewrite Hbad. }
  split; [by rewrite resolveVisibleTools_library|]. split; [done|].
  intros -> prompt. unfold handle_query.
  change (personalized_prompt prompt bad) with (personalized_prompt prompt guest).
  apply Hrun.
Qed.

Lemma invalid_member_id_is_guest_witness :
  (py "None" ∉ valid_members (globals initial_state))
  ∧ is_member_allowed {| context := Some user_context |} initial_state
    = (inr false, initial_state)
  ∧ (∀ prompt,
       @handle_query ascii_only_tables (scripted_runtime (inr (py "ALLOW")))
         prompt user_context initial_state
       = @handle_query ascii_only_tables (scripted_runtime (inr (py "ALLOW")))
           prompt {| name := py "Omer"; member_id := None |} initial_state).
Proof.
  assert (Hmid : py "None" ∉ valid_members (globals initial_state))
    by by vm_compute.
  pose proof (@invalid_member_id_is_guest ascii_only_tables
                (scripted_runtime (inr (py "ALLOW"))) (py "Omer") (py "None")
                initial_state Hmid) as (Hbad & _ & _ & _ & _ & Hnone).
  split; [exact Hmid|]. split; [exact Hbad|]. exact (Hnone eq_refl).
Defined.

(** ** Registration of the tools *)

Lemma register_tool_duplicate reg t :
  tool_name t ∈ dom reg →
  register_tool reg t = inl (DuplicateToolName (tool_name t)).
Proof.
  intros [t' Ht']%elem_of_dom. unfold register_tool. by rewrite Ht'.
Qed.

Lemma register_tool_fresh reg t :
  tool_name t ∉ dom reg →
  register_tool reg t = inr (<[tool_name t := t]> reg).
Proof.
  intros Hfresh%not_elem_of_dom. unfold register_tool. by rewrite Hfresh.
Qed.

(** Distinct names, none of them registered yet: the registry is built and
    holds every tool under its name. *)
Lemma build_registry_ok ts :
  ∀ reg,
    NoDup (tool_name <$> ts) →
    Forall (λ n, n ∉ dom reg) (tool_name <$> ts) →
    ∃ reg',
      build_registry ts reg = inr reg'
      ∧ dom reg' = dom reg ∪ list_to_set (tool_name <$> ts)
      ∧ (∀ t, t ∈ ts → reg' !! tool_name t = Some t).
Proof.
  induction ts as [|t ts IH]; intros reg Hnd Hfresh.
  - exists reg. split; [done|]. split; [|by intros t ?%elem_of_nil].
    simpl. by rewrite (right_id_L ∅ (∪)).
  - rewrite fmap_cons in Hnd, Hfresh.
    apply NoDup_cons in Hnd as [Hnotin Hnd].
    apply Forall_cons in Hfresh as [Ht Hfresh].
    cbn [build_registry]. rewrite (register_tool_fresh _ _ Ht).
    destruct (IH (<[tool_name t := t]> reg) Hnd) as (reg' & Hb & Hdom & Hget).
    { rewrite Forall_forall in Hfresh |- *. intros n Hn.
      rewrite dom_insert_L, not_elem_of_union, not_elem_of_singleton.
      split; [by intros ->|by apply Hfresh]. }
    exists reg'. split; [done|]. split.
    + rewrite Hdom, dom_insert_L, fmap_cons. simpl.
      rewrite (comm_L (∪) {[tool_name t]} (dom reg)).
      by rewrite <- (assoc_L (∪)).
    + intros t' [-> | Ht']%elem_of_cons; [|by apply Hget].
      (* the tools registered later have other names *)
      clear IH Hdom Hget Hfresh Hnd.
      assert (Hkeep : ∀ ts reg reg',
                build_registry ts reg = inr reg' →
                ∀ k v, reg !! k = Some v → reg' !! k = Some v).
      { clear. induction ts as [|u ts IH]; intros reg reg' Hb k v Hk;
          cbn [build_registry] in Hb; [by injection Hb as <-|].
        unfold register_tool in Hb.
        destruct (reg !! tool_name u) eqn:Hu; [done|].
        apply (IH _ _ Hb). rewrite lookup_insert_ne; [done|].
        intros Heq. rewrite Heq in Hu. by rewrite Hu in Hk. }
      apply (Hkeep _ _ _ Hb). apply lookup_insert_eq.
Qed.

(** A name that occurs twice, or is registered already: the construction
    fails with [DuplicateToolName] on one of the names. *)
Lemma build_registry_duplicate ts :
  ∀ reg,
    ¬ (NoDup (tool_name <$> ts) ∧ Forall (λ n, n ∉ dom reg) (tool_name <$> ts)) →
    ∃ n, n ∈ tool_name <$> ts
         ∧ build_registry ts reg = inl (DuplicateToolName n).
Proof.
  induction ts as [|t ts IH]; intros reg Hbad.
  - destruct Hbad. split; constructor.
  - cbn [build_registry].
    destruct (decide (tool_name t ∈ dom reg)) as [Hin|Hfresh].
    + exists (tool_name t). rewrite (register_tool_duplicate _ _ Hin).
      split; [|done]. rewrite fmap_cons. by left.
    + rewrite (register_tool_fresh _ _ Hfresh).
      destruct (IH (<[tool_name t := t]> reg)) as (n & Hn & Hb).
      * intros [Hnd Hall]. apply Hbad. rewrite fmap_cons.
        rewrite Forall_forall in Hall. split.
        -- apply NoDup_cons. split; [|done]. intros Hin.
           apply (Hall _ Hin). rewrite dom_insert_L.
           apply elem_of_union_l. by apply elem_of_singleton.
        -- apply Forall_cons. split; [done|]. rewrite Forall_forall.
           intros n Hn Hdom. apply (Hall _ Hn). rewrite dom_insert_L.
           by apply elem_of_union_r.
      * exists n. split; [|done]. rewrite fmap_cons. by right.
Qed.

(** C6: the names of a registry are unique.  Registering a tool under a
    name that is taken fails with [DuplicateToolName]; a list of tools in
    which a name occurs twice makes the construction of the agent fail with
    that error, so that no agent exists; a list of distinct names, such as
    the three tools of the library assistant, is accepted. *)
Theorem duplicate_tool_name_is_fatal `{UnicodeTables} rt :
  (∀ reg t, tool_name t ∈ dom reg →
     register_tool reg t = inl (DuplicateToolName (tool_name t)))
  ∧ (∀ aname instr guards ts, ¬ NoDup (tool_name <$> ts) →
       ∃ n, n ∈ tool_name <$> ts
            ∧ Agent_new aname instr guards ts = inl (DuplicateToolName n))
  ∧ (∀ aname instr guards ts, NoDup (tool_name <$> ts) →
       Agent_new aname instr guards ts
       = inr {| agent_name := aname; instructions := instr;
                input_guardrails := guards; tools := ts |}
       ∧ ∃ reg, build_registry ts ∅ = inr reg
                ∧ dom reg = list_to_set (tool_name <$> ts)
                ∧ ∀ t, t ∈ ts → reg !! tool_name t = Some t)
  ∧ NoDup (tool_name <$> library_tools)
  ∧ library_agent_init rt = inr (library_agent rt).
Proof.
  assert (Hlib : NoDup (tool_name <$> library_tools)).
  { cbn [fmap list_fmap library_tools]. unfold_tool.
    repeat (apply NoDup_cons; split);
      rewrite ?not_elem_of_cons; repeat split;
      try apply not_elem_of_nil; try apply NoDup_nil_2; by vm_compute. }
  assert (Hok : ∀ aname instr guards ts, NoDup (tool_name <$> ts) →
            Agent_new aname instr guards ts
            = inr {| agent_name := aname; instructions := instr;
                     input_guardrails := guards; tools := ts |}
            ∧ ∃ reg, build_registry ts ∅ = inr reg
                     ∧ dom reg = list_to_set (tool_name <$> ts)
                     ∧ ∀ t, t ∈ ts → reg !! tool_name t = Some t).
  { intros aname instr guards ts Hnd.
    destruct (build_registry_ok ts ∅ Hnd) as (reg & Hb & Hdom & Hget).
    { apply Forall_forall. intros n _. rewrite dom_empty_L.
      apply not_elem_of_empty. }
    unfold Agent_new. rewrite Hb. split; [done|]. exists reg.
    split; [done|]. split; [|done].
    by rewrite Hdom, dom_empty_L, (left_id_L ∅ (∪)). }
  split; [apply register_tool_duplicate|]. split; [|split; [done|]].
  - intros aname instr guards ts Hdup.
    destruct (build_registry_duplicate ts ∅) as (n & Hn & Hb).
    { by intros [Hnd _]. }
    exists n. split; [done|]. unfold Agent_new. by rewrite Hb.
  - split; [done|]. unfold library_agent_init. by apply Hok.
Qed.

Lemma duplicate_tool_name_is_fatal_witness :
  ¬ NoDup (tool_name <$> [search_book_tool; check_availability_tool;
                          search_book_tool])
  ∧ ∃ n,
      n ∈ tool_name <$> [search_book_tool; check_availability_tool;
                         search_book_tool]
      ∧ Agent_new (py "library-assistant") [] []
          [search_book_tool; check_availability_tool; search_book_tool]
        = inl (DuplicateToolName n).
Proof.
  assert (Hdup : ¬ NoDup (tool_name <$> [search_book_tool;
                            check_availability_tool; search_book_tool])).
  { cbn [fmap list_fmap]. intros [Hnotin _]%NoDup_cons. apply Hnotin.
    right. by left. }
  split; [exact Hdup|].
  exact (proj1 (proj2 (@duplicate_tool_name_is_fatal ascii_only_tables
                         (scripted_runtime (inr (py "ALLOW")))))
           (py "library-assistant") [] [] _ Hdup).
Defined.

(** * Further properties of the module *)

(** ** The catalogue tools *)

(** X1: Whatever the catalogue holds, [search_book] and [check_availability]
    agree on a title: a title of the catalogue is reported as found and gets
    its stored number of copies without a note, also when that number is
    zero; any other title is reported as not found and gets zero copies with
    the note.  Both echo the title as it was given. *)
Theorem search_and_availability_agree ctx book st :
  ∃ found available,
    search_book ctx book st = (inr found, st)
    ∧ check_availability ctx book st = (inr available, st)
    ∧ pydict_get (py "title") found = Some (PStr book)
    ∧ pydict_get (py "title") available = Some (PStr book)
    ∧ match book_db (globals st) !! book with
      | Some copies =>
          pydict_get (py "in_catalog") found = Some (PBool true)
          ∧ pydict_get (py "available_copies") available = Some (PInt copies)
          ∧ pydict_get (py "note") available = None
      | None =>
          pydict_get (py "in_catalog") found = Some (PBool false)
          ∧ pydict_get (py "available_copies") available = Some (PInt 0)
          ∧ pydict_get (py "note") available
            = Some (PStr (py "Not in catalog."))
      end.
Proof.
  rewrite search_book_run, check_availability_run, dict_contains_lookup.
  eexists _, _. split; [done|]. split; [done|].
  destruct (book_db (globals st) !! book) as [copies|];
    repeat split; by vm_compute.
Qed.

Lemma BOOK_DB_lookup book :
  BOOK_DB !! book
  = if bool_decide (book = py "Clean Code") then Some 2%Z
    else if bool_decide (book = py "The Pragmatic Programmer") then Some 0%Z
    else if bool_decide (book = py "Introduction to Algorithms") then Some 3%Z
    else if bool_decide (book = py "Design Patterns") then Some 1%Z
    else if bool_decide (book = py "Deep Learning") then Some 4%Z
    else None.
Proof.
  unfold BOOK_DB. rewrite !list_to_map_cons, list_to_map_nil.
  rewrite !lookup_insert, lookup_empty.
  repeat (case_decide; case_bool_decide; try congruence).
Qed.

Lemma BOOK_DB_titles book :
  bool_decide (book ∈ [py "Clean Code"; py "The Pragmatic Programmer";
                       py "Introduction to Algorithms";
                       py "Design Patterns"; py "Deep Learning"])
  = match BOOK_DB !! book with Some _ => true | None => false end.
Proof.
  rewrite BOOK_DB_lookup.
  repeat match goal with
         | |- context [bool_decide (book = ?t)] =>
             destruct (decide (book = t)) as [->|?];
             [by vm_compute
             |rewrite (bool_decide_eq_false_2 (book = t)) by done]
         end.
  apply bool_decide_eq_false_2. rewrite !elem_of_cons, elem_of_nil. tauto.
Qed.

Lemma BOOK_DB_copies book copies :
  BOOK_DB !! book = Some copies → (0 ≤ copies ≤ 4)%Z.
Proof.
  rewrite BOOK_DB_lookup. repeat case_bool_decide; intros [= <-]; lia.
Qed.

(** X2: With the catalogue of the module, a title is found exactly when it is
    one of the five titles, letter for letter (the look-up folds no case and
    trims nothing), and the number of copies reported is between 0 and 4
    for every title asked. *)
Theorem shipped_catalogue_answers ctx book tr :
  ∃ found available copies,
    search_book ctx book {| globals := module_globals; trace := tr |}
    = (inr found, {| globals := module_globals; trace := tr |})
    ∧ check_availability ctx book {| globals := module_globals; trace := tr |}
      = (inr available, {| globals := module_globals; trace := tr |})
    ∧ pydict_get (py "in_catalog") found
      = Some (PBool (bool_decide
                       (book ∈ [py "Clean Code"; py "The Pragmatic Programmer";
                                py "Introduction to Algorithms";
                                py "Design Patterns"; py "Deep Learning"])))
    ∧ pydict_get (py "available_copies") available = Some (PInt copies)
    ∧ (0 ≤ copies ≤ 4)%Z.
Proof.
  rewrite search_book_run, check_availability_run, dict_contains_lookup.
  cbn [globals book_db module_globals]. rewrite BOOK_DB_titles.
  pose proof (BOOK_DB_copies book) as Hrange.
  destruct (BOOK_DB !! book) as [copies|].
  - exists [(py "title", PStr book); (py "in_catalog", PBool true)],
      [(py "title", PStr book); (py "available_copies", PInt copies)], copies.
    repeat split; try done; by apply Hrange.
  - exists [(py "title", PStr book); (py "in_catalog", PBool false)],
      [(py "title", PStr book); (py "available_copies", PInt 0);
       (py "note", PStr (py "Not in catalog."))], 0%Z.
    repeat split; try done.
Qed.

(** ** Case and white space on ASCII strings *)

Lemma same_letter_spec c1 c2 :
  same_letter c1 c2 = true →
  c1 < 128 ∧ c2 < 128
  ∧ ascii_lower c1 = ascii_lower c2 ∧ ascii_upper c1 = ascii_upper c2.
Proof.
  unfold same_letter, ascii_lower, ascii_upper.
  rewrite !andb_true_iff, !orb_true_iff, !andb_true_iff.
  rewrite !N.ltb_lt, !N.eqb_eq, !N.leb_le.
  intros [[H1 H2] Hcase]. split; [done|]. split; [done|].
  destruct (N.leb_spec 65 c1), (N.leb_spec c1 90), (N.leb_spec 65 c2),
    (N.leb_spec c2 90), (N.leb_spec 97 c1), (N.leb_spec c1 122),
    (N.leb_spec 97 c2), (N.leb_spec c2 122); simpl; lia.
Qed.

Lemma lower_char_ascii `{UnicodeTables} s i c :
  c < 128 → lower_char s i c = [ascii_lower c].
Proof.
  intros Hc%N.ltb_lt. unfold lower_char, ascii_lower. rewrite Hc.
  by destruct ((65 <=? c) && (c <=? 90)).
Qed.

Lemma same_letters_spec s1 s2 :
  same_letters s1 s2 →
  ascii_only s1 ∧ ascii_only s2
  ∧ ascii_lower <$> s1 = ascii_lower <$> s2
  ∧ ascii_upper <$> s1 = ascii_upper <$> s2.
Proof.
  induction 1 as [|c1 c2 s1 s2 Hc _ (H1 & H2 & Hl & Hu)].
  - repeat split; by constructor.
  - apply same_letter_spec in Hc as (Hc1 & Hc2 & Hcl & Hcu).
    rewrite !fmap_cons, Hl, Hu, Hcl, Hcu. repeat split; by constructor.
Qed.

(** ** The timings tool *)

Lemma lower_differ_in_case `{UnicodeTables} s1 s2 :
  differ_in_case s1 s2 →
  (∀ i c, s1 !! i = Some c → 128 ≤ c →
     lower_full s1 i c = lower_full s2 i c) →
  lower s1 = lower s2.
Proof.
  intros Hcase Htable. unfold lower.
  assert (Haux : ∀ (F1 F2 : nat → N → str) t1 t2,
            differ_in_case t1 t2 →
            (∀ i c1 c2, t1 !! i = Some c1 →
               c1 = c2 ∨ same_letter c1 c2 = true → F1 i c1 = F2 i c2) →
            mjoin (imap F1 t1) = mjoin (imap F2 t2)).
  { intros F1 F2 t1 t2 Ht. revert F1 F2.
    induction Ht as [|c1 c2 t1 t2 Hc _ IH]; intros F1 F2 HF; [done|].
    rewrite !imap_cons. cbn [mjoin list_join].
    rewrite (HF 0%nat c1 c2 eq_refl Hc). f_equal. apply IH.
    intros i d1 d2 Hi Hd. by apply (HF (S i)). }
  apply Haux; [done|]. intros i c1 c2 Hi [<- | Hsame].
  - destruct (N.ltb_spec c1 128) as [Hlt|Hge].
    + by rewrite !lower_char_ascii.
    + unfold lower_char.
      destruct (N.leb_spec 65 c1), (N.leb_spec c1 90), (N.ltb_spec c1 128);
        simpl; try lia. by apply Htable.
  - apply same_letter_spec in Hsame as (Hc1 & Hc2 & Hl & _).
    by rewrite !lower_char_ascii, Hl.
Qed.

(** X3: The hours returned for a day do not depend on the case of its ASCII
    letters, whatever the schedule holds: two day strings that differ at
    most in the case of ASCII letters get the same hours, and each gets its
    own spelling echoed.  For the code points above 127 that the two strings
    share, the lower-case table is asked at the same place of both strings
    and has to answer alike; between ASCII strings nothing is asked. *)
Theorem get_library_timings_ignores_case `{UnicodeTables} ctx day1 day2 st :
  differ_in_case day1 day2 →
  (∀ i c, day1 !! i = Some c → 128 ≤ c →
     lower_full day1 i c = lower_full day2 i c) →
  ∃ hrs,
    get_library_timings ctx day1 st
    = (inr [ (py "day", PStr day1); (py "hours", PStr hrs) ], st)
    ∧ get_library_timings ctx day2 st
      = (inr [ (py "day", PStr day2); (py "hours", PStr hrs) ], st).
Proof.
  intros Hcase Htable.
  rewrite !get_library_timings_run, (lower_differ_in_case _ _ Hcase Htable).
  by eexists.
Qed.

Lemma get_library_timings_ignores_case_witness :
  ∃ hrs,
    @get_library_timings ascii_only_tables {| context := None |}
      (py "fRiDaY" ++ [233]) initial_state
    = (inr [ (py "day", PStr (py "fRiDaY" ++ [233])); (py "hours", PStr hrs) ],
       initial_state)
    ∧ @get_library_timings ascii_only_tables {| context := None |}
        (py "Friday" ++ [233]) initial_state
      = (inr [ (py "day", PStr (py "Friday" ++ [233]));
               (py "hours", PStr hrs) ],
         initial_state).
Proof.
  apply (@get_library_timings_ignores_case ascii_only_tables).
  - unfold differ_in_case.
    repeat (constructor; [first [by left|right; by vm_compute]|]).
    constructor.
  - reflexivity.
Defined.

Lemma LIBRARY_TIMINGS_lookup key :
  LIBRARY_TIMINGS !! key
  = if bool_decide (key ∈ [py "monday"; py "tuesday"; py "wednesday";
                           py "thursday"; py "friday"])
    then Some (hours "9:00" "19:00")
    else if bool_decide (key = py "saturday") then Some (hours "10:00" "16:00")
    else if bool_decide (key = py "sunday") then Some (hours "10:00" "14:00")
    else None.
Proof.
  unfold LIBRARY_TIMINGS. rewrite !list_to_map_cons, list_to_map_nil.
  rewrite !lookup_insert, lookup_empty.
  repeat match goal with
         | |- context [decide (?t = key)] =>
             destruct (decide (t = key)) as [<-|?]; [by vm_compute|]
         end.
  rewrite bool_decide_eq_false_2
    by (rewrite !elem_of_cons, elem_of_nil; intuition congruence).
  by rewrite !bool_decide_eq_false_2 by congruence.
Qed.

(** X4: With the schedule of the module, the answer is "Unknown day." exactly
    when the lower-cased day is none of the seven day names; no trimming is
    done, so a day with a space around it is unknown.  The days from Monday
    to Friday share one answer. *)
Theorem shipped_timings_answers `{UnicodeTables} ctx day tr :
  ∃ hrs,
    get_library_timings ctx day {| globals := module_globals; trace := tr |}
    = (inr [ (py "day", PStr day); (py "hours", PStr hrs) ],
       {| globals := module_globals; trace := tr |})
    ∧ (hrs = py "Unknown day."
       ↔ lower day ∉ [py "monday"; py "tuesday"; py "wednesday";
                       py "thursday"; py "friday"; py "saturday";
                       py "sunday"])
    ∧ (lower day ∈ [py "monday"; py "tuesday"; py "wednesday";
                     py "thursday"; py "friday"] →
       hrs = hours "9:00" "19:00").
Proof.
  rewrite get_library_timings_run. cbn [globals library_timings module_globals].
  unfold dict_get. rewrite LIBRARY_TIMINGS_lookup.
  generalize (lower day). intros key.
  destruct (decide (key ∈ [py "monday"; py "tuesday"; py "wednesday";
                           py "thursday"; py "friday"])) as [Hweek|Hweek].
  { rewrite bool_decide_eq_true_2 by done. eexists. split; [done|].
    split; [|done]. split; [by vm_compute|]. intros Hnot. destruct Hnot.
    revert Hweek. rewrite !elem_of_cons. tauto. }
  rewrite bool_decide_eq_false_2 by done.
  destruct (decide (key = py "saturday")) as [->|Hsat].
  { eexists. split; [done|]. split; [|done]. split; [by vm_compute|].
    intros Hnot. destruct Hnot. rewrite !elem_of_cons. tauto. }
  rewrite (bool_decide_eq_false_2 (key = py "saturday")) by done.
  destruct (decide (key = py "sunday")) as [->|Hsun].
  { eexists. split; [done|]. split; [|done]. split; [by vm_compute|].
    intros Hnot. destruct Hnot. rewrite !elem_of_cons. tauto. }
  rewrite (bool_decide_eq_false_2 (key = py "sunday")) by done.
  eexists. split; [done|]. split; [|done]. split; [|done]. intros _.
  revert Hweek. rewrite !elem_of_cons, !elem_of_nil. tauto.
Qed.

(** ** What the guardrail lets through *)

Lemma strip_idemp s : strip (strip s) = strip s.
Proof.
  destruct (strip_ends s) as [Hfirst Hlast].
  rewrite <- (app_nil_r (strip s)) at 1.
  by apply (strip_trim [] (strip s) []); try constructor.
Qed.

Lemma ascii_upper_letter c d :
  c < 128 → 65 ≤ d ≤ 90 → ascii_upper c = d → same_letter c d = true.
Proof.
  unfold ascii_upper, same_letter. intros Hc Hd.
  rewrite !andb_true_iff, !orb_true_iff, !andb_true_iff.
  rewrite !N.ltb_lt, !N.eqb_eq, !N.leb_le.
  destruct (N.leb_spec 97 c), (N.leb_spec c 122); simpl; lia.
Qed.

Lemma ascii_upper_same_letters w v :
  ascii_only w → Forall (λ d, 65 ≤ d ≤ 90) v →
  ascii_upper <$> w = v → same_letters w v.
Proof.
  intros Hw. revert v.
  induction Hw as [|c w Hc _ IH]; intros [|d v] Hcaps Heq; try done.
  - constructor.
  - rewrite fmap_cons in Heq. injection Heq as Hd Hv.
    apply Forall_cons in Hcaps as [Hd' Hcaps].
    constructor; [by apply ascii_upper_letter|by apply IH].
Qed.

(** X5: The answers the guardrail lets through are the five letters of "ALLOW"
    in any case with white space around them: every such answer passes, and
    an ASCII answer that passes is of that form. *)
Theorem guardrail_accepts_exactly `{UnicodeTables} rt ctx msg st result st1 :
  Runner_run rt guardrail_agent msg {| context := None |} st = (inr result, st1) →
  ((∃ l w r, final_output result = l ++ w ++ r
             ∧ blank l ∧ blank r ∧ same_letters w (py "ALLOW")) →
   library_input_guardrail rt ctx msg st = (inr tt, st1))
  ∧ (ascii_only (final_output result) →
     library_input_guardrail rt ctx msg st = (inr tt, st1) →
     ∃ l w r, final_output result = l ++ w ++ r
              ∧ blank l ∧ blank r ∧ same_letters w (py "ALLOW")).
Proof.
  intros Hrun. rewrite library_input_guardrail_run, Hrun.
  cbn [outcome final fst snd]. split.
  - intros (l & w & r & -> & Hl & Hr & Hw).
    assert (Hstrip : strip (l ++ w ++ r) = w).
    { apply strip_trim; [done|done| |].
      - intros c w' ->. apply Forall2_cons_inv_l in Hw as (d & v & Hc & _ & Hd).
        injection Hd as <- _. revert Hc. unfold same_letter.
        rewrite !andb_true_iff, !orb_true_iff, !andb_true_iff.
        rewrite !N.ltb_lt, !N.eqb_eq, !N.leb_le. intros Hc.
        assert (c = 65 ∨ c = 97) as [-> | ->] by lia; done.
      - intros c w' ->.
        apply Forall2_app_inv_l in Hw as (v1 & v2 & _ & Hc & Hv).
        apply Forall2_cons_inv_l in Hc as (d & v & Hc & Hnil & ->).
        apply Forall2_nil_inv_l in Hnil as ->.
        assert (d = 87) as ->.
        { apply (f_equal reverse) in Hv. rewrite reverse_app in Hv.
          vm_compute in Hv. by injection Hv as ->. }
        revert Hc. unfold same_letter.
        rewrite !andb_true_iff, !orb_true_iff, !andb_true_iff.
        rewrite !N.ltb_lt, !N.eqb_eq, !N.leb_le. intros Hc.
        assert (c = 87 ∨ c = 119) as [-> | ->] by lia; done. }
    rewrite Hstrip.
    apply same_letters_spec in Hw as (Hw1 & _ & _ & Hu).
    rewrite (upper_ascii_only w Hw1), Hu.
    by rewrite bool_decide_eq_false_2 by (intros Hne; apply Hne; by vm_compute).
  - intros Hascii. case_bool_decide as Hn; [done|]. intros _.
    assert (Heq : upper (strip (final_output result)) = py "ALLOW").
    { destruct (decide (upper (strip (final_output result)) = py "ALLOW"));
        [done|by destruct Hn]. }
    destruct (strip_split (final_output result)) as (l & r & Hsplit & Hl & Hr).
    exists l, (strip (final_output result)), r.
    split; [done|]. split; [done|]. split; [done|].
    assert (Hw : ascii_only (strip (final_output result))).
    { unfold ascii_only in *. rewrite Hsplit in Hascii.
      apply Forall_app in Hascii as [_ Hascii].
      by apply Forall_app in Hascii as [Hascii _]. }
    rewrite (upper_ascii_only _ Hw) in Heq.
    apply ascii_upper_same_letters; [done| |done].
    change (py "ALLOW") with [65; 76; 76; 79; 87]. repeat constructor; lia.
Qed.

Lemma guardrail_accepts_exactly_witness :
  Runner_run (scripted_runtime (inr (py " Allow" ++ [10])))
    guardrail_agent (py "hello") {| context := None |} initial_state
  = (inr {| final_output := py " Allow" ++ [10] |},
     final (@library_input_guardrail ascii_only_tables
              (scripted_runtime (inr (py " Allow" ++ [10])))
              {| context := None |} (py "hello") initial_state))
  ∧ @library_input_guardrail ascii_only_tables
      (scripted_runtime (inr (py " Allow" ++ [10])))
      {| context := None |} (py "hello") initial_state
    = (inr tt,
       final (@library_input_guardrail ascii_only_tables
                (scripted_runtime (inr (py " Allow" ++ [10])))
                {| context := None |} (py "hello") initial_state)).
Proof.
  assert (Hrun : Runner_run (scripted_runtime (inr (py " Allow" ++ [10])))
                   guardrail_agent (py "hello") {| context := None |}
                   initial_state
                 = (inr {| final_output := py " Allow" ++ [10] |},
                    final (@library_input_guardrail ascii_only_tables
                             (scripted_runtime (inr (py " Allow" ++ [10])))
                             {| context := None |} (py "hello") initial_state)))
    by (vm_compute; reflexivity).
  split; [exact Hrun|].
  apply (proj1 (@guardrail_accepts_exactly ascii_only_tables
                  _ {| context := None |} _ _ _ _ Hrun)).
  exists (py " "), (py "Allow"), [10]. split; [done|].
  split; [by repeat constructor|]. split; [by repeat constructor|].
  repeat constructor.
Defined.

(** X6: Whatever the answer of the guardrail agent, the guardrail does one of
    three things: it passes, it raises the [ValueError] with the refusal, or
    it raises what the run of the guardrail agent raised.  It leaves the
    store as it is and logs only completion calls of the guardrail agent, to
    which no tool is offered. *)
Theorem library_input_guardrail_outcomes `{UnicodeTables} rt ctx msg st :
  (outcome (library_input_guardrail rt ctx msg st) = inr tt
   ∨ outcome (library_input_guardrail rt ctx msg st)
     = inl (ValueError refusal_message)
   ∨ ∃ e, outcome (Runner_run rt guardrail_agent msg {| context := None |} st)
          = inl e
          ∧ outcome (library_input_guardrail rt ctx msg st) = inl e)
  ∧ ∃ evs,
      final (library_input_guardrail rt ctx msg st)
      = {| globals := globals st; trace := trace st ++ evs |}
      ∧ Forall (λ ev, ∃ req, ev = EvModelCall (py "guardrail-agent") req
                             ∧ req_tools req = []) evs.
Proof.
  split.
  - rewrite library_input_guardrail_run. cbv zeta. unfold outcome.
    cbn [fst].
    destruct (Runner_run rt guardrail_agent msg {| context := None |} st).1
      as [e|result].
    + right. right. by exists e.
    + case_bool_decide; [right; by left|by left].
  - destruct (library_input_guardrail_events rt ctx msg st)
      as (evs & Hfin & Hall).
    exists evs. split; [done|]. eapply Forall_impl; [exact Hall|].
    intros [a req|t arg]; simpl.
    + intros [-> Hreq]. by exists req.
    + by intros ?%elem_of_nil.
Qed.

(** ** The membership check *)

(** X7: The membership check answers true exactly when the context carries a
    member id that is not the empty string and is in the valid set: an empty
    id is refused even by a store whose valid set holds the empty string.
    The check leaves the state as it is. *)
Theorem is_member_allowed_iff ctx st :
  ∃ b,
    is_member_allowed ctx st = (inr b, st)
    ∧ (b = true
       ↔ ∃ uc m, context ctx = Some uc ∧ member_id uc = Some m
                 ∧ m ≠ [] ∧ m ∈ valid_members (globals st)).
Proof.
  rewrite is_member_allowed_run. eexists. split; [done|].
  destruct (context ctx) as [uc|]; [|split; [done|by intros (? & ? & [=] & _)]].
  destruct (member_id uc) as [m|] eqn:Hm.
  2: { split; [done|]. intros (? & ? & [= <-] & ? & _). congruence. }
  case_bool_decide as Hnil.
  - split; [done|]. intros (? & ? & [= <-] & ? & Hne & _). congruence.
  - rewrite bool_decide_eq_true. split.
    + intros Hin. by exists uc, m.
    + intros (? & ? & [= <-] & ? & _ & Hin). congruence.
Qed.

(** ** The API key *)

(** X8: Loading the module goes past the check of the API key exactly when the
    environment holds a non-empty [GEMINI_API_KEY], which is the key used;
    a missing variable and an empty one both end in the same [ValueError]. *)
Theorem gemini_api_key_iff environ :
  (∀ key, gemini_api_key environ = inr key
          ↔ environ !! py "GEMINI_API_KEY" = Some key ∧ key ≠ [])
  ∧ (gemini_api_key environ = inl (ValueError (py "GEMINI_API_KEY is not set."))
     ↔ environ !! py "GEMINI_API_KEY" = None
       ∨ environ !! py "GEMINI_API_KEY" = Some []).
Proof.
  unfold gemini_api_key.
  destruct (environ !! py "GEMINI_API_KEY") as [k|]; [case_bool_decide|].
  - subst k. split; [intros key; split; [done|by intros [[= <-] ?]]|]. 
    split; [by right|done].
  - split.
    + intros key. split; [by intros [= <-]|by intros [[= <-] _]].
    + split; [done|]. by intros [|[= ->]].
  - split; [intros key; split; [done|by intros [? _]]|]. split; [by left|done].
Qed.

(** ** One iteration of the loop *)

Lemma strip_nil_iff s : strip s = [] ↔ blank s.
Proof.
  split; [|apply strip_blank].
  intros Hs. destruct (strip_split s) as (l & r & Hsplit & Hl & Hr).
  rewrite Hs in Hsplit. rewrite Hsplit. by apply Forall_app.
Qed.

Lemma run_loop_step_blank `{UnicodeTables} rt uc line st :
  blank line → run_loop_step rt uc line st = (inr None, st).
Proof.
  intros Hb%strip_nil_iff. unfold run_loop_step. cbv zeta.
  by rewrite Hb, bool_decide_eq_true_2.
Qed.

Lemma run_loop_step_not_blank `{UnicodeTables} rt uc line st :
  ¬ blank line →
  run_loop_step rt uc line st
  = (inr (Some match outcome (handle_query rt (strip line) uc st) with
               | inr result => BotSays (final_output result)
               | inl e => ErrorLine e
               end),
     final (handle_query rt (strip line) uc st)).
Proof.
  intros Hnb. unfold run_loop_step. cbv zeta.
  rewrite bool_decide_eq_false_2 by by rewrite strip_nil_iff.
  rewrite bind_run. unfold try_catch, outcome, final.
  by destruct (handle_query rt (strip line) uc st) as [[e|result] st'].
Qed.

(** X9: A blank line costs nothing: nothing is printed, no service is called
    and the state is as before.  Any other line prints one line and never
    raises: the answer of [handle_query] on the trimmed line, or the
    exception it raised.  White space around the line makes no difference. *)
Theorem run_loop_step_cases `{UnicodeTables} rt uc line st :
  (blank line → run_loop_step rt uc line st = (inr None, st))
  ∧ (¬ blank line →
     run_loop_step rt uc line st
     = (inr (Some match outcome (handle_query rt (strip line) uc st) with
                  | inr result => BotSays (final_output result)
                  | inl e => ErrorLine e
                  end),
        final (handle_query rt (strip line) uc st)))
  ∧ run_loop_step rt uc (strip line) st = run_loop_step rt uc line st.
Proof.
  split; [apply run_loop_step_blank|]. split; [apply run_loop_step_not_blank|].
  unfold run_loop_step. cbv zeta. by rewrite strip_idemp.
Qed.

Lemma run_loop_step_cases_witness :
  @run_loop_step ascii_only_tables (scripted_runtime (inr (py "ALLOW")))
    user_context ([9] ++ py "  ") initial_state
  = (inr None, initial_state).
Proof.
  apply (@run_loop_step_cases ascii_only_tables).
  by repeat constructor.
Defined.

(** ** Computations that only read the store *)

Lemma store_reader_ret {A} (x : A) : store_reader (mret x).
Proof. by intros st. Qed.

Lemma store_reader_raise {A} e : store_reader (@raise A e).
Proof. by intros st. Qed.

Lemma store_reader_emit ev : store_reader (emit ev).
Proof. by intros st. Qed.

Lemma store_reader_read_globals : store_reader read_globals.
Proof. intros st. split; [done|]. intros st' Hg. unfold outcome. simpl. by rewrite Hg. Qed.

Lemma store_reader_bind {A B} (m : M A) (k : A → M B) :
  store_reader m → (∀ x, store_reader (k x)) → store_reader (m ≫= k).
Proof.
  intros Hm Hk st. destruct (Hm st) as [Hg Ho]. split.
  - rewrite bind_run. destruct (outcome (m st)) as [e|x]; [done|].
    destruct (Hk x (final (m st))) as [Hkg _]. by rewrite Hkg.
  - intros st' Hst. rewrite !bind_run, (Ho st' Hst).
    destruct (outcome (m st)) as [e|x]; [done|].
    destruct (Hk x (final (m st))) as [_ Hko]. apply Hko.
    destruct (Hm st') as [Hg' _]. by rewrite Hg', Hg.
Qed.

Lemma store_reader_try_catch {A} (m : M A) :
  store_reader m → store_reader (try_catch m).
Proof.
  intros Hm st. destruct (Hm st) as [Hg Ho]. unfold try_catch. split.
  - unfold final in *. by destruct (m st).
  - intros st' Hst. specialize (Ho st' Hst). unfold outcome in *.
    destruct (m st), (m st'). simpl in *. by rewrite Ho.
Qed.

(** Compose the lemmas above along the structure of a computation. *)
Ltac store_reader :=
  repeat first
    [ assumption
    | apply store_reader_ret
    | apply store_reader_raise
    | apply store_reader_emit
    | apply store_reader_read_globals
    | apply store_reader_try_catch
    | match goal with
      | |- store_reader (_ ≫= _) => apply store_reader_bind; [|intros ?]
      end
    | match goal with
      | |- store_reader (match ?x with _ => _ end) => destruct x
      end ].

Lemma library_tools_store_reader `{UnicodeTables} t ctx arg :
  t ∈ library_tools → store_reader (on_invoke_tool t ctx arg).
Proof.
  unfold library_tools. rewrite !elem_of_cons, elem_of_nil.
  intros [-> | [-> | [-> | []]]]; unfold_tool.
  - unfold search_book. store_reader.
  - unfold check_availability, dict_getitem. store_reader.
  - unfold get_library_timings. store_reader.
Qed.

Lemma execute_tool_call_store_reader visible ctx tname arg :
  (∀ t ctx arg, t ∈ visible → store_reader (on_invoke_tool t ctx arg)) →
  store_reader (execute_tool_call visible ctx tname arg).
Proof.
  intros Hvis. unfold execute_tool_call.
  destruct (find_tool tname visible) as [t|] eqn:Hf; [|store_reader].
  apply find_tool_Some in Hf as [Ht _]. store_reader. by apply Hvis.
Qed.

Lemma dispatch_loop_store_reader rt agent visible ctx n :
  (∀ t ctx arg, t ∈ visible → store_reader (on_invoke_tool t ctx arg)) →
  ∀ conv, store_reader (dispatch_loop rt agent visible ctx n conv).
Proof.
  intros Hvis. induction n as [|n IH]; intros conv; cbn [dispatch_loop];
    unfold call_model; store_reader.
  - by apply execute_tool_call_store_reader.
  - apply IH.
Qed.

Lemma store_reader_bind_post {A B} (m : M A) (k : A → M B) (P : A → Prop) :
  store_reader m →
  (∀ st x, outcome (m st) = inr x → P x) →
  (∀ x, P x → store_reader (k x)) →
  store_reader (m ≫= k).
Proof.
  intros Hm HP Hk st. destruct (Hm st) as [Hg Ho]. split.
  - rewrite bind_run. destruct (outcome (m st)) as [e|x] eqn:Hx; [done|].
    destruct (Hk x (HP st x Hx) (final (m st))) as [Hkg _]. by rewrite Hkg.
  - intros st' Hst. rewrite !bind_run, (Ho st' Hst).
    destruct (outcome (m st)) as [e|x] eqn:Hx; [done|].
    destruct (Hk x (HP st x Hx) (final (m st))) as [_ Hko]. apply Hko.
    destruct (Hm st') as [Hg' _]. by rewrite Hg', Hg.
Qed.

Lemma resolveVisibleTools_store_reader ts ctx :
  (∀ t, t ∈ ts → store_reader (is_enabled t ctx)) →
  store_reader (resolveVisibleTools ts ctx).
Proof.
  induction ts as [|t ts IH]; intros Hen; cbn [resolveVisibleTools];
    store_reader.
  - apply Hen. by left.
  - apply IH. intros u Hu. apply Hen. by right.
Qed.

Lemma resolveVisibleTools_subset ts ctx :
  ∀ st visible,
    outcome (resolveVisibleTools ts ctx st) = inr visible →
    ∀ t, t ∈ visible → t ∈ ts.
Proof.
  induction ts as [|t ts IH]; intros st visible; cbn [resolveVisibleTools].
  - intros [= <-] u Hu. done.
  - rewrite bind_run. destruct (outcome (is_enabled t ctx st)) as [e|b]; [done|].
    rewrite bind_run.
    destruct (outcome (resolveVisibleTools ts ctx _)) as [e|rest] eqn:Hrest;
      [done|].
    intros [= <-] u Hu. specialize (IH _ _ Hrest u).
    destruct b; [apply elem_of_cons in Hu as [->|Hu]|];
      rewrite elem_of_cons; auto.
Qed.

Lemma run_input_guardrails_store_reader guards ctx input :
  Forall (λ guard, store_reader (guard ctx input)) guards →
  store_reader (run_input_guardrails guards ctx input).
Proof.
  induction 1 as [|guard guards Hg _ IH]; cbn [run_input_guardrails];
    store_reader.
Qed.

(** A run only reads the store when the guardrails, the visibility
    predicates and the handlers of the agent do. *)
Lemma Runner_run_store_reader rt agent input ctx :
  Forall (λ guard, store_reader (guard ctx input)) (input_guardrails agent) →
  (∀ t, t ∈ tools agent → store_reader (is_enabled t ctx)) →
  (∀ t ctx arg, t ∈ tools agent → store_reader (on_invoke_tool t ctx arg)) →
  store_reader (Runner_run rt agent input ctx).
Proof.
  intros Hguards Hen Hinv. unfold Runner_run.
  apply store_reader_bind; [by apply run_input_guardrails_store_reader|].
  intros _.
  apply (store_reader_bind_post _ _ (λ visible, ∀ t, t ∈ visible → t ∈ tools agent)).
  - by apply resolveVisibleTools_store_reader.
  - apply resolveVisibleTools_subset.
  - intros visible Hsub. store_reader. apply dispatch_loop_store_reader.
    intros t ctx' arg Ht. apply Hinv. by apply Hsub.
Qed.

Lemma library_input_guardrail_store_reader `{UnicodeTables} rt ctx msg :
  store_reader (library_input_guardrail rt ctx msg).
Proof.
  unfold library_input_guardrail. store_reader.
  apply Runner_run_store_reader; cbn [input_guardrails tools guardrail_agent].
  - constructor.
  - by intros t ?%elem_of_nil.
  - by intros t ? ? ?%elem_of_nil.
Qed.

Lemma handle_query_store_reader `{UnicodeTables} rt prompt uc :
  store_reader (handle_query rt prompt uc).
Proof.
  unfold handle_query.
  apply Runner_run_store_reader; cbn [input_guardrails tools library_agent].
  - constructor; [apply library_input_guardrail_store_reader|constructor].
  - unfold library_tools. intros t. rewrite !elem_of_cons, elem_of_nil.
    intros [-> | [-> | [-> | []]]]; unfold_tool; unfold id, is_member_allowed;
      cbv beta; store_reader.
  - intros t ctx arg Ht. by apply library_tools_store_reader.
Qed.

Lemma run_loop_step_store_reader `{UnicodeTables} rt uc line :
  store_reader (run_loop_step rt uc line).
Proof.
  unfold run_loop_step. cbv zeta. store_reader.
  apply handle_query_store_reader.
Qed.

Lemma run_loop_turns_store_reader `{UnicodeTables} rt uc lines :
  store_reader (run_loop_turns rt uc lines).
Proof.
  induction lines as [|line lines IH]; cbn [run_loop_turns]; store_reader.
  apply run_loop_step_store_reader.
Qed.

(** ** A session *)

Lemma run_loop_step_events `{UnicodeTables} rt uc line st :
  ∃ o visible gevs levs,
    run_loop_step rt uc line st
    = (inr o, {| globals := globals st; trace := trace st ++ gevs ++ levs |})
    ∧ (o = None ↔ blank line)
    ∧ resolveVisibleTools library_tools {| context := Some uc |} st
      = (inr visible, st)
    ∧ Forall (allowed_event guardrail_agent []) gevs
    ∧ Forall (allowed_event (library_agent rt) visible) levs.
Proof.
  destruct (decide (blank line)) as [Hb|Hb].
  - rewrite (run_loop_step_blank rt uc line st Hb). eexists None, _, [], [].
    split; [destruct st; simpl; by rewrite app_nil_r|]. split; [done|].
    split; [apply resolveVisibleTools_library|]. by split.
  - rewrite (run_loop_step_not_blank rt uc line st Hb).
    destruct (handle_query_events rt (strip line) uc st)
      as (visible & gevs & levs & Hvis & Hfin & Hg & Hl).
    rewrite Hfin. eexists _, visible, gevs, levs. split; [done|].
    split; [by split|]. by repeat split.
Qed.

Lemma run_loop_turns_cons `{UnicodeTables} rt uc line lines st o st1 outs st2 :
  run_loop_step rt uc line st = (inr o, st1) →
  run_loop_turns rt uc lines st1 = (inr outs, st2) →
  run_loop_turns rt uc (line :: lines) st
  = (inr match o with Some p => p :: outs | None => outs end, st2).
Proof.
  intros Hstep Hrest. cbn [run_loop_turns].
  rewrite bind_run, Hstep. cbn [outcome final fst snd].
  by rewrite bind_run, Hrest.
Qed.

Lemma run_loop_turns_total `{UnicodeTables} rt uc lines st :
  ∃ outs evs,
    run_loop_turns rt uc lines st
    = (inr outs, {| globals := globals st; trace := trace st ++ evs |}).
Proof.
  revert st. induction lines as [|line lines IH]; intros st.
  - exists [], []. destruct st. simpl. by rewrite app_nil_r.
  - destruct (run_loop_step_events rt uc line st)
      as (o & visible & gevs & levs & Hstep & _).
    destruct (IH {| globals := globals st; trace := trace st ++ gevs ++ levs |})
      as (outs & evs & Hrest).
    rewrite (run_loop_turns_cons _ _ _ _ _ _ _ _ _ Hstep Hrest).
    cbn [globals trace]. eexists _, ((gevs ++ levs) ++ evs).
    by rewrite <- !app_assoc.
Qed.

(** X10: A session never raises, whatever the service does: it prints exactly
    one line for every line typed that is not blank, it leaves the tables
    of the module as they were, and it only adds to the log. *)
Theorem run_loop_turns_prints `{UnicodeTables} rt uc lines st :
  ∃ outs evs,
    run_loop_turns rt uc lines st
    = (inr outs, {| globals := globals st; trace := trace st ++ evs |})
    ∧ length outs = length (filter (λ line, ¬ blank line) lines).
Proof.
  revert st. induction lines as [|line lines IH]; intros st.
  - exists [], []. split; [|done]. destruct st. simpl. by rewrite app_nil_r.
  - destruct (run_loop_step_events rt uc line st)
      as (o & visible & gevs & levs & Hstep & Ho & _).
    destruct (IH {| globals := globals st; trace := trace st ++ gevs ++ levs |})
      as (outs & evs & Hrest & Hlen).
    rewrite (run_loop_turns_cons _ _ _ _ _ _ _ _ _ Hstep Hrest).
    cbn [globals trace]. exists (match o with Some p => p :: outs | None => outs end),
      ((gevs ++ levs) ++ evs).
    split; [by rewrite <- !app_assoc|]. rewrite filter_cons.
    destruct o as [p|].
    + rewrite decide_True; [simpl; by rewrite Hlen|].
      intros Hb. apply Ho in Hb. done.
    + rewrite decide_False; [done|]. intros Hnb. apply Hnb. by apply Ho.
Qed.

(** X11: The turns of a session do not know of each other.  The line printed for
    a prompt is the same whatever was asked before, and a session over two
    runs of lines prints what the two sessions print, one after the other
    (for a completion service that answers a request by its content). *)
Theorem turns_are_independent `{UnicodeTables} rt uc lines1 lines2 st :
  (∀ line st', globals st' = globals st →
     outcome (run_loop_step rt uc line st')
     = outcome (run_loop_step rt uc line st))
  ∧ ∃ outs1 outs2,
      outcome (run_loop_turns rt uc lines1 st) = inr outs1
      ∧ outcome (run_loop_turns rt uc lines2 st) = inr outs2
      ∧ outcome (run_loop_turns rt uc (lines1 ++ lines2) st)
        = inr (outs1 ++ outs2).
Proof.
  split.
  { intros line st' Hg. by apply run_loop_step_store_reader. }
  revert st. induction lines1 as [|line lines1 IH]; intros st.
  - destruct (run_loop_turns_total rt uc lines2 st) as (outs2 & evs & Hrun).
    exists [], outs2. simpl. by rewrite Hrun.
  - destruct (run_loop_step_events rt uc line st)
      as (o & visible & gevs & levs & Hstep & _).
    set (st1 := {| globals := globals st; trace := trace st ++ gevs ++ levs |})
      in *.
    destruct (IH st1) as (outs1 & outs2 & H1 & H2 & H12).
    destruct (run_loop_turns rt uc lines1 st1) as [r1 s1] eqn:E1.
    destruct (run_loop_turns rt uc (lines1 ++ lines2) st1) as [r12 s12] eqn:E12.
    cbn [outcome fst] in H1, H12. subst r1 r12.
    exists (match o with Some p => p :: outs1 | None => outs1 end), outs2.
    rewrite (run_loop_turns_cons _ _ _ _ _ _ _ _ _ Hstep E1).
    rewrite <- app_comm_cons.
    rewrite (run_loop_turns_cons _ _ _ _ _ _ _ _ _ Hstep E12).
    cbn [outcome fst]. split; [done|]. split; [|by destruct o].
    rewrite <- H2. symmetry. by apply run_loop_turns_store_reader.
Qed.

Lemma guest_events_without_check_availability `{UnicodeTables} rt visible
    gevs levs :
  py "check_availability" ∉ tool_name <$> visible →
  Forall (allowed_event guardrail_agent []) gevs →
  Forall (allowed_event (library_agent rt) visible) levs →
  Forall without_check_availability (gevs ++ levs).
Proof.
  intros Hnot Hg Hl. apply Forall_app. split.
  - eapply Forall_impl; [exact Hg|]. intros [a req|t arg]; simpl.
    + intros [_ ->]. apply not_elem_of_nil.
    + by intros ?%elem_of_nil.
  - eapply Forall_impl; [exact Hl|]. intros [a req|t arg]; simpl.
    + by intros [_ ->].
    + intros Hin ->. by apply Hnot.
Qed.

Lemma run_loop_turns_guest `{UnicodeTables} rt uc lines :
  ∀ st,
    outcome (is_member_allowed {| context := Some uc |} st) = inr false →
    ∃ outs evs,
      run_loop_turns rt uc lines st
      = (inr outs, {| globals := globals st; trace := trace st ++ evs |})
      ∧ Forall without_check_availability evs.
Proof.
  induction lines as [|line lines IH]; intros st Hguest.
  - exists [], []. split; [|done]. destruct st. simpl. by rewrite app_nil_r.
  - destruct (run_loop_step_events rt uc line st)
      as (o & visible & gevs & levs & Hstep & _ & Hvis & Hg & Hl).
    rewrite resolveVisibleTools_library, Hguest in Hvis.
    injection Hvis as <-.
    destruct (IH {| globals := globals st; trace := trace st ++ gevs ++ levs |})
      as (outs & evs & Hrest & Hall).
    { by rewrite (is_member_allowed_globals _ _ st). }
    rewrite (run_loop_turns_cons _ _ _ _ _ _ _ _ _ Hstep Hrest).
    cbn [globals trace]. eexists _, ((gevs ++ levs) ++ evs).
    split; [by rewrite <- !app_assoc|]. apply Forall_app. split; [|done].
    apply (guest_events_without_check_availability rt
             [search_book_tool; get_library_timings_tool]); [|done|done].
    cbn [fmap list_fmap]. rewrite !not_elem_of_cons.
    repeat split; try by vm_compute. apply not_elem_of_nil.
Qed.

(** X12: The program as written never checks availability.  [run_loop] gives
    its user the member id "None", which is not a valid id, so in a whole
    session, whatever is typed and whatever the service answers, no request
    offers [check_availability] and the tool is never executed.  The session
    prints the greeting, its answers and the farewell, and never raises. *)
Theorem run_loop_never_checks_availability `{UnicodeTables} rt lines tr :
  ∃ outs evs,
    run_loop rt lines {| globals := module_globals; trace := tr |}
    = (inr (Greeting :: (Answer <$> outs) ++ [Farewell]),
       {| globals := module_globals; trace := tr ++ evs |})
    ∧ Forall without_check_availability evs.
Proof.
  destruct (run_loop_turns_guest rt user_context lines
              {| globals := module_globals; trace := tr |})
    as (outs & evs & Hrun & Hall).
  { rewrite is_member_allowed_run. by vm_compute. }
  exists outs, evs. split; [|done]. unfold run_loop.
  by rewrite bind_run, Hrun.
Qed.

(** ** What a turn sends first *)

(** X13: Every turn starts with one request to the guardrail agent, before
    anything else is logged.  The text it classifies is not the bare prompt
    but the personalized prompt of [handle_query], which puts the name and
    the member id of the user in front of the prompt; no tool is offered
    with it. *)
Theorem handle_query_first_request `{UnicodeTables} rt prompt uc st :
  ∃ evs,
    trace (final (handle_query rt prompt uc st))
    = trace st
      ++ EvModelCall (py "guardrail-agent")
           {| req_instructions := instructions guardrail_agent;
              req_conversation := [UserTurn (personalized_prompt prompt uc)];
              req_tools := [] |} :: evs.
Proof.
  cut (∃ evs,
         trace (final (library_input_guardrail rt {| context := Some uc |}
                         (personalized_prompt prompt uc) st))
         = trace st
           ++ EvModelCall (py "guardrail-agent")
                {| req_instructions := instructions guardrail_agent;
                   req_conversation := [UserTurn (personalized_prompt prompt uc)];
                   req_tools := [] |} :: evs).
  { intros (gevs & Hg). rewrite handle_query_run. cbv zeta.
    destruct (library_input_guardrail rt {| context := Some uc |}
                (personalized_prompt prompt uc) st) as [o st1].
    cbn [outcome final fst snd] in *. destruct o as [e|[]]; [by exists gevs|].
    match goal with
    | |- context [dispatch_loop rt _ ?v _ _ _ _] => set (visible := v)
    end.
    assert (Hro : Forall read_only visible).
    { apply Forall_forall. intros t Ht. apply library_tools_read_only.
      unfold library_tools. revert Ht. unfold visible.
      destruct (outcome (is_member_allowed _ _)) as [|[]];
        rewrite !elem_of_cons, !elem_of_nil; tauto. }
    destruct (dispatch_loop_events rt (library_agent rt) visible
                {| context := Some uc |} (max_tool_round_trips rt) Hro
                [UserTurn (personalized_prompt prompt uc)] st1)
      as (levs & Hl & _).
    cbv zeta in Hl. unfold final in *. cbn [snd]. rewrite Hl.
    cbn [trace]. rewrite Hg. exists (gevs ++ levs).
    by rewrite <- app_assoc. }
  rewrite library_input_guardrail_run, Runner_run_guardrail_agent. cbv zeta.
  cbn [final snd]. rewrite dispatch_loop_unfold. cbv zeta.
  cbn [tool_name fmap list_fmap agent_name guardrail_agent].
  set (req := {| req_instructions := _ |}).
  set (st1 := log_event st (EvModelCall (py "guardrail-agent") req)).
  assert (Hst1 : ∀ n conv,
            ∃ evs, trace (dispatch_loop rt guardrail_agent []
                            {| context := None |} n conv st1).2
                   = trace st ++ EvModelCall (py "guardrail-agent") req :: evs).
  { intros n conv.
    destruct (dispatch_loop_events rt guardrail_agent [] {| context := None |}
                n (Forall_nil_2 _) conv st1) as (evs & Hfin & _).
    cbv zeta in Hfin. unfold final in Hfin. rewrite Hfin. exists evs.
    cbn [trace globals st1 log_event]. by rewrite <- app_assoc. }
  destruct (model_gemini rt req) as [e|resp]; [by exists []|].
  destruct (resp_tool_call resp) as [[tname arg]|]; [|by exists []].
  destruct (max_tool_round_trips rt) as [|n]; [by exists []|].
  rewrite execute_tool_call_run.
  assert (Hnone : find_tool tname [] = None) by done. rewrite Hnone.
  cbn [outcome final fst snd]. apply Hst1.
Qed.
